(** * GCS bulk inventory patch for the Snakemake job scheduler

    A shallow embedding of
    [src/analysis/google_batch/gcs_job_scheduler_patch.py]: the module
    constants read from the process environment, the bulk inventory that
    lists a bucket prefix once, the two patched [_IOFile] methods that
    answer from the inventory, and the two call sites that start the
    inventory ([async_run] and [JobScheduler.job_selector]).

    Python dictionaries with string keys are [gmap string _]; Python
    integers are [Z]; an exception is the [Raises] case of [outcome];
    the module's global variables are the fields of [state], threaded
    explicitly through every function. *)

From Stdlib Require Import ZArith String List Lia.
From stdpp Require Import base option list gmap strings.

Local Open Scope string_scope.
Local Open Scope Z_scope.
Local Open Scope list_scope.

(** ** Values *)

(** What a call gives back: a value, or an exception carrying its text. *)
Inductive outcome (A : Type) : Type :=
| Returns (a : A)
| Raises (e : string).
Arguments Returns {A} a.
Arguments Raises {A} e.

(** A blob as [bucket.list_blobs] yields it.  [blob_updated] is the
    instant of [blob.updated] (microseconds since the epoch), [None]
    when the backend reports none. *)
Record blob : Type := Blob {
  blob_name : string;
  blob_size : Z;
  blob_updated : option Z
}.

(** The dictionary built at lines 76-80.  The key ['exists'] is written
    [fi_exists] because [exists] is reserved. *)
Record file_info : Type := FileInfo {
  fi_exists : bool;
  fi_size : Z;
  fi_mtime : option Z
}.

(** [_cache_stats], lines 42-48.  [inventory_time] holds
    [timedelta.total_seconds()]; the model keeps the timedelta itself, a
    whole number of microseconds. *)
Record cache_stats : Type := CacheStats {
  inventory_calls : Z;
  files_cached : Z;
  cache_hits : Z;
  cache_misses : Z;
  inventory_time : Z
}.

(** What one listing request does: the blobs the iterator yields, in
    order, and then either the end of the iteration ([None]) or an
    exception ([Some e]).  Creating the client, taking the bucket handle
    and [list_blobs] (lines 70-72) all sit in the same [try] block as the
    iteration, so a failure of any of them is [Listing [] (Some e)]. *)
Inductive listing : Type :=
| Listing (yielded : list blob) (failure : option string).

(** One run of the inventory as the outside world decides it: the answer
    of the store and the time between the two readings of the clock. *)
Record run : Type := Run {
  run_listing : listing;
  run_elapsed : Z
}.

(** Lines written to standard error. *)
Inductive log_line : Type :=
| LogRule
| LogStarting (bucket prefix : string)
| LogProcessed (count : Z)
| LogCached (count : Z) (elapsed : Z)
| LogError (e : string)
| LogTraceback (e : string)
| LogDisabled
| LogApplying
| LogPatched (what : string)
| LogConfiguration (project bucket prefix : string)
| LogAsyncRunCalled (coro_name : string)
| LogAsyncRunDetected
| LogAsyncRunInventory
| LogAsyncRunComplete (entries : Z)
| LogAsyncRunExisting
| LogJobSelectorEntered
| LogJobSelectorInventory
| LogJobSelectorComplete (entries : Z)
| LogJobSelectorExisting (entries : Z)
| LogJobSelectorCalling.

(** A call of one of the saved original [_IOFile] methods: one request
    to the remote store for one object. *)
Inductive remote_call : Type :=
| RemoteExists (path : string)
| RemoteSize (path : string).

(** The module's globals (lines 41-52), followed by what the module does
    to the outside: the lines it printed, the number of listing requests
    it sent, and the single-object requests it let through. *)
Record state : Type := State {
  _bulk_cache : gmap string file_info;
  _cache_stats : cache_stats;
  _inventory_done : bool;
  stderr : list log_line;
  list_calls : nat;
  remote_calls : list remote_call
}.

Definition initial_stats : cache_stats :=
  {| inventory_calls := 0; files_cached := 0; cache_hits := 0;
     cache_misses := 0; inventory_time := 0 |}.

Definition initial_state : state :=
  {| _bulk_cache := ∅; _cache_stats := initial_stats;
     _inventory_done := false; stderr := []; list_calls := O;
     remote_calls := [] |}.

(** Assignments to one global at a time. *)
Definition set_bulk_cache (c : gmap string file_info) (st : state) : state :=
  {| _bulk_cache := c; _cache_stats := _cache_stats st;
     _inventory_done := _inventory_done st; stderr := stderr st;
     list_calls := list_calls st; remote_calls := remote_calls st |}.

Definition set_cache_stats (s : cache_stats) (st : state) : state :=
  {| _bulk_cache := _bulk_cache st; _cache_stats := s;
     _inventory_done := _inventory_done st; stderr := stderr st;
     list_calls := list_calls st; remote_calls := remote_calls st |}.

Definition set_inventory_done (b : bool) (st : state) : state :=
  {| _bulk_cache := _bulk_cache st; _cache_stats := _cache_stats st;
     _inventory_done := b; stderr := stderr st;
     list_calls := list_calls st; remote_calls := remote_calls st |}.

Definition print (ls : list log_line) (st : state) : state :=
  {| _bulk_cache := _bulk_cache st; _cache_stats := _cache_stats st;
     _inventory_done := _inventory_done st; stderr := stderr st ++ ls;
     list_calls := list_calls st; remote_calls := remote_calls st |}.

Definition count_list_call (st : state) : state :=
  {| _bulk_cache := _bulk_cache st; _cache_stats := _cache_stats st;
     _inventory_done := _inventory_done st; stderr := stderr st;
     list_calls := S (list_calls st); remote_calls := remote_calls st |}.

Definition record_remote (c : remote_call) (st : state) : state :=
  {| _bulk_cache := _bulk_cache st; _cache_stats := _cache_stats st;
     _inventory_done := _inventory_done st; stderr := stderr st;
     list_calls := list_calls st; remote_calls := remote_calls st ++ [c] |}.

(** [_cache_stats['cache_hits'] += 1] and its neighbours. *)
Definition add_hit (s : cache_stats) : cache_stats :=
  {| inventory_calls := inventory_calls s; files_cached := files_cached s;
     cache_hits := cache_hits s + 1; cache_misses := cache_misses s;
     inventory_time := inventory_time s |}.

Definition add_miss (s : cache_stats) : cache_stats :=
  {| inventory_calls := inventory_calls s; files_cached := files_cached s;
     cache_hits := cache_hits s; cache_misses := cache_misses s + 1;
     inventory_time := inventory_time s |}.

(** Lines 99-101: the run count is incremented, the other two fields are
    assigned. *)
Definition record_inventory (count elapsed : Z) (s : cache_stats) : cache_stats :=
  {| inventory_calls := inventory_calls s + 1; files_cached := count;
     cache_hits := cache_hits s; cache_misses := cache_misses s;
     inventory_time := elapsed |}.

(** [needle in haystack] on Python strings. *)
Fixpoint contains (needle haystack : string) : bool :=
  String.prefix needle haystack ||
  match haystack with
  | EmptyString => false
  | String _ rest => contains needle rest
  end.

(** ** [patch_googlebatch_logs.py]: the executor's log retrieval replaced

    The second module of the repository replaces
    [GoogleBatchExecutor.save_finished_job_logs] by [skip_log_retrieval],
    which writes a placeholder file instead of reading the job's log from
    the Cloud Logging API. *)

Definition newline : string := String (Ascii.ascii_of_nat 10) EmptyString.
Definition double_quote : string := String (Ascii.ascii_of_nat 34) EmptyString.
Definition backslash : string := String (Ascii.ascii_of_nat 92) EmptyString.

(** [s * n] on Python strings. *)
Fixpoint repeat_string (s : string) (n : nat) : string :=
  match n with
  | O => EmptyString
  | S n => s +:+ repeat_string s n
  end.

(** [job_info.aux["batch_job"]], of which the function reads [uid] and
    [name]. *)
Record batch_job : Type := BatchJob {
  job_uid : string;
  job_name : string
}.

(** [job_info.aux]: a dictionary in which each of the two keys the
    function reads may be missing. *)
Record job_aux : Type := JobAux {
  aux_logfile : option string;
  aux_batch_job : option batch_job
}.

(** What [self.logger] receives. *)
Inductive log_record : Type :=
| LogWarning (msg : string)
| LogDebug (msg : string).

(** What the operating system does with the [with open(...)] block: the
    block runs to its end; [open] raises; or a write or the closing of the
    file raises, leaving in the file whatever had reached it. *)
Inductive io_result : Type :=
| WriteOk
| OpenFails (e : string)
| WriteFails (e : string) (flushed : string).

(** The files and the logger. *)
Record executor_world : Type := ExecutorWorld {
  files : gmap string string;
  logger : list log_record
}.

(** The fifteen [logfile.write] calls of lines 55-69, in order. *)
Definition placeholder_writes (project logfname uid name : string) : list string :=
  [ repeat_string "=" 80 +:+ newline;
    "LOG RETRIEVAL DISABLED (Performance Optimization)" +:+ newline;
    repeat_string "=" 80 +:+ newline +:+ newline;
    "Job Name: " +:+ name +:+ newline;
    "Job UID:  " +:+ uid +:+ newline +:+ newline;
    "Automatic log retrieval was disabled to avoid Google Cloud" +:+ newline;
    "Logging API rate limits (60 requests/minute) that can cause" +:+ newline;
    "performance issues for large workflows." +:+ newline +:+ newline;
    "To retrieve logs manually:" +:+ newline +:+ newline;
    "  # Using gcloud CLI:" +:+ newline;
    "  gcloud logging read " +:+ double_quote +:+ "labels.job_uid=" +:+ uid +:+
      double_quote +:+ " " +:+ backslash +:+ newline;
    "    --project=" +:+ project +:+ " " +:+ backslash +:+ newline;
    "    --format=json > " +:+ logfname +:+ ".json" +:+ newline +:+ newline;
    "  # Or view in Cloud Console:" +:+ newline;
    "  https://console.cloud.google.com/logs/query;query=labels.job_uid%3D" +:+ uid +:+
      newline +:+ newline ].

Definition placeholder (project logfname uid name : string) : string :=
  fold_right String.append EmptyString (placeholder_writes project logfname uid name).

(** [skip_log_retrieval(self, job_info, sleeps, page_size)] (lines 39-76).
    [project] is [self.executor_settings.project]; [io] is what the
    operating system does during this call.  The three subscripts of lines
    48-50 come before the [try] and raise [KeyError] on a missing key. *)
Definition skip_log_retrieval (project : string) (aux : job_aux) (sleeps page_size : Z)
    (io : io_result) (w : executor_world) : outcome unit * executor_world :=
  match aux_logfile aux with
  | None => (Raises "KeyError: 'logfile'", w)
  | Some logfname =>
    match aux_batch_job aux with
    | None => (Raises "KeyError: 'batch_job'", w)
    | Some job =>
      let w :=
        match io with
        | WriteOk =>
          {| files := <[logfname := placeholder project logfname (job_uid job) (job_name job)]>
                        (files w);
             logger := logger w |}
        | OpenFails e =>
          {| files := files w;
             logger := logger w ++
                       [LogWarning ("Failed to write placeholder log file: " +:+ e)] |}
        | WriteFails e flushed =>
          {| files := <[logfname := flushed]> (files w);
             logger := logger w ++
                       [LogWarning ("Failed to write placeholder log file: " +:+ e)] |}
        end in
      (Returns tt,
       {| files := files w;
          logger := logger w ++
                    [LogDebug ("Skipped log retrieval for job " +:+ job_uid job +:+
                               " (performance optimization)")] |})
    end
  end.

(** [needle] occurs somewhere in [s]. *)
Definition occurs_in (needle s : string) : Prop :=
  exists pre post, s = pre +:+ needle +:+ post.

(** ** Sample inputs

    The bucket of the scenario: two objects, [a/1.txt] of 10 bytes and
    [a/2.txt] of 20 bytes; a store that answers every listing request
    with them and one that refuses every request; and original methods
    that find no object. *)
Definition sample_blobs : list blob :=
  [ {| blob_name := "a/1.txt"; blob_size := 10; blob_updated := None |};
    {| blob_name := "a/2.txt"; blob_size := 20; blob_updated := None |} ].

Definition sample_run : run :=
  {| run_listing := Listing sample_blobs None; run_elapsed := 1500000 |}.

Definition sample_world : nat -> run := fun _ => sample_run.

Definition refusing_world : nat -> run :=
  fun _ => {| run_listing := Listing [] (Some "403 Forbidden"); run_elapsed := 0 |}.

Definition absent_exists : string -> outcome bool := fun _ => Returns false.

Definition absent_size : string -> outcome Z := fun _ => Raises "FileNotFoundError".

Definition disabling_environ : gmap string string :=
  {[ "GCS_JOB_SCHEDULER_PATCH_DISABLE" := "1" ]}.

(** A process environment that sets the disable variable to a value
    other than 1, and the hit-rate test done on exact fractions. *)
Definition enabling_environ : gmap string string :=
  {[ "GCS_JOB_SCHEDULER_PATCH_DISABLE" := "true" ]}.

Definition exact_above_95 : Z -> Z -> bool :=
  fun hits total => 95 * total <? 100 * hits.

Section Patch.

(** The process environment, the outside world (the answer to the k-th
    listing request, counted from 0, and the time that run takes) and
    the two original [_IOFile] methods that [apply_patch] saves. *)
Variable environ : gmap string string.
Variable world : nat -> run.
Variable original_iofile_exists : string -> outcome bool.
Variable original_iofile_size : string -> outcome Z.

(** ** Configuration (lines 27-31) *)

Definition GCS_PROJECT : string := default "lasagna-199723" (environ !! "GCS_PROJECT").
Definition GCS_BUCKET : string := default "scale1" (environ !! "GCS_BUCKET").
Definition GCS_PREFIX : string := default "qinling/" (environ !! "GCS_PREFIX").

Definition PATCH_DISABLED : bool :=
  bool_decide (default "0" (environ !! "GCS_JOB_SCHEDULER_PATCH_DISABLE") = "1").

(** ** Bulk inventory (lines 58-114) *)

(** The three keys of lines 83-85. *)
Definition gcs_uri (blob_name : string) : string :=
  "gs://" +:+ GCS_BUCKET +:+ "/" +:+ blob_name.
Definition snakemake_path (blob_name : string) : string :=
  ".snakemake/storage/gcs/" +:+ GCS_BUCKET +:+ "/" +:+ blob_name.
Definition local_path (blob_name : string) : string :=
  "/mnt/data/blainey/qinling-analysis/gcs/" +:+ GCS_BUCKET +:+ "/" +:+ blob_name.

(** Lines 76-80. *)
Definition file_info_of (b : blob) : file_info :=
  {| fi_exists := true; fi_size := blob_size b; fi_mtime := blob_updated b |}.

(** Lines 87-89.  The three keys hold one and the same dictionary
    object; nothing in the module writes to it afterwards, so three
    equal values model it. *)
Definition store_blob (b : blob) (cache : gmap string file_info) : gmap string file_info :=
  let info := file_info_of b in
  <[local_path (blob_name b) := info]>
    (<[snakemake_path (blob_name b) := info]>
      (<[gcs_uri (blob_name b) := info]> cache)).

(** The local variables of the loop: [cache], [count] and the progress
    lines printed so far. *)
Record loop_vars : Type := LoopVars {
  lv_cache : gmap string file_info;
  lv_count : Z;
  lv_out : list log_line
}.

(** One iteration, lines 76-95. *)
Definition loop_body (lv : loop_vars) (b : blob) : loop_vars :=
  let count := lv_count lv + 1 in
  {| lv_cache := store_blob b (lv_cache lv);
     lv_count := count;
     lv_out := if (count mod 10000 =? 0) then lv_out lv ++ [LogProcessed count]
               else lv_out lv |}.

Definition inventory_loop (blobs : list blob) : loop_vars :=
  fold_left loop_body blobs {| lv_cache := ∅; lv_count := 0; lv_out := [] |}.

(** The [try] block, lines 70-107.  [r] is what the store and the clock
    do during this call.  [list_calls] counts the executions of the
    listing request of lines 70-75.  An exception leaves the block before
    line 97, so the statistics are written on the normal path only. *)
Definition inventory_try (r : run) (st : state) : outcome (gmap string file_info) * state :=
  let st := count_list_call st in
  match run_listing r with
  | Listing blobs failure =>
    let lv := inventory_loop blobs in
    let st := print (lv_out lv) st in
    match failure with
    | Some e => (Raises e, st)
    | None =>
      let st := set_cache_stats
                  (record_inventory (lv_count lv) (run_elapsed r) (_cache_stats st)) st in
      let st := print [LogCached (lv_count lv) (run_elapsed r); LogRule] st in
      (Returns (lv_cache lv), st)
    end
  end.

(** [bulk_inventory_gcs()]: what the call gives back and the module
    state afterwards.  The [Raises] branch of the [match] is the
    [except Exception] handler of lines 109-114. *)
Definition bulk_inventory_gcs (r : run) (st : state) : outcome (gmap string file_info) * state :=
  let st := print [LogRule; LogStarting GCS_BUCKET GCS_PREFIX] st in
  match inventory_try r st with
  | (Returns cache, st) => (Returns cache, st)
  | (Raises e, st) =>
    let st := print [LogError e; LogTraceback e; LogRule] st in
    (Returns ∅, st)
  end.

(** ** Patched [_IOFile] methods (lines 120-139)

    [path_str] is [str(self)].  The saved original is called with the
    same file; each such call is one request to the remote store and is
    appended to [remote_calls]. *)

Definition patched_iofile_exists (path_str : string) (st : state) : outcome bool * state :=
  match _bulk_cache st !! path_str with
  | Some info =>
    let st := set_cache_stats (add_hit (_cache_stats st)) st in
    (Returns (fi_exists info), st)
  | None =>
    let st := set_cache_stats (add_miss (_cache_stats st)) st in
    (original_iofile_exists path_str, record_remote (RemoteExists path_str) st)
  end.

Definition patched_iofile_size (path_str : string) (st : state) : outcome Z * state :=
  match _bulk_cache st !! path_str with
  | Some info => (Returns (fi_size info), st)
  | None => (original_iofile_size path_str, record_remote (RemoteSize path_str) st)
  end.

(** ** The two call sites of the inventory (lines 169-251) *)

(** What [patched_async_run] looks at in its argument: [__name__] when
    the object has one, and [str(coroutine)]. *)
Record coroutine : Type := Coroutine {
  coro_name : option string;
  coro_str : string
}.

(** Lines 186-199 and 225-238 run the same three statements:
    the test of [_inventory_done], the assignment of the inventory to
    [_bulk_cache], and the assignment of [True] to [_inventory_done]. *)
Definition patched_async_run (c : coroutine) (st : state) : outcome unit * state :=
  let st := print [LogAsyncRunCalled (default (coro_str c) (coro_name c))] st in
  if contains "update_input_sizes" (coro_str c) then
    let st := print [LogAsyncRunDetected] st in
    if negb (_inventory_done st) then
      let st := print [LogAsyncRunInventory] st in
      match bulk_inventory_gcs (world (list_calls st)) st with
      | (Returns cache, st) =>
        let st := set_bulk_cache cache st in
        let st := set_inventory_done true st in
        (Returns tt, print [LogAsyncRunComplete (Z.of_nat (size (_bulk_cache st)))] st)
      | (Raises e, st) => (Raises e, st)
      end
    else (Returns tt, print [LogAsyncRunExisting] st)
  else (Returns tt, st).

(** [early_inventory_job_selector] up to the call of the original
    selector at line 244.  The original selector and the coroutine that
    the original [async_run] runs belong to the host; what they ask of
    this module arrives as further calls (see [host_call]). *)
Definition early_inventory_job_selector (st : state) : outcome unit * state :=
  let st := print [LogRule; LogJobSelectorEntered] st in
  if negb (_inventory_done st) then
    let st := print [LogJobSelectorInventory] st in
    match bulk_inventory_gcs (world (list_calls st)) st with
    | (Returns cache, st) =>
      let st := set_bulk_cache cache st in
      let st := set_inventory_done true st in
      let st := print [LogJobSelectorComplete (Z.of_nat (size (_bulk_cache st)))] st in
      (Returns tt, print [LogJobSelectorCalling] st)
    | (Raises e, st) => (Raises e, st)
    end
  else
    let st := print [LogJobSelectorExisting (Z.of_nat (size (_bulk_cache st)))] st in
    (Returns tt, print [LogJobSelectorCalling] st).

(** ** Loading the module (lines 31-35, 145-260, 299-302) *)

(** Which function an attribute of the host program points to. *)
Inductive implementation : Type := Original | Patched.

(** The four attributes that [apply_patch] assigns, and whether
    [print_statistics] is registered with [atexit]. *)
Record host : Type := Host {
  IOFile_exists : implementation;
  IOFile_size : implementation;
  common_async_run : implementation;
  JobScheduler_job_selector : implementation;
  atexit_registered : bool
}.

Definition unpatched : host :=
  {| IOFile_exists := Original; IOFile_size := Original;
     common_async_run := Original; JobScheduler_job_selector := Original;
     atexit_registered := false |}.

Definition apply_patch (h : host) (st : state) : host * state :=
  let st := print [LogRule; LogApplying; LogRule] st in
  let st := print [LogPatched "_IOFile.exists()"; LogPatched "_IOFile.size()"] st in
  let st := print [LogPatched "async_run()"] st in
  let st := print [LogPatched "JobScheduler.job_selector"] st in
  let st := print [LogConfiguration GCS_PROJECT GCS_BUCKET GCS_PREFIX; LogRule] st in
  ({| IOFile_exists := Patched; IOFile_size := Patched;
      common_async_run := Patched; JobScheduler_job_selector := Patched;
      atexit_registered := atexit_registered h |}, st).

Inductive import_result : Type :=
| Imported
| SystemExit (code : Z).

(** Executing the module body.  With the disable variable set the body
    stops at [sys.exit(0)] on line 35, before the globals are created and
    before [apply_patch()] on line 301. *)
Definition import_module (h : host) : import_result * host * state :=
  if PATCH_DISABLED then
    (SystemExit 0, h, print [LogDisabled] initial_state)
  else
    let '(h, st) := apply_patch h initial_state in
    (Imported,
     {| IOFile_exists := IOFile_exists h; IOFile_size := IOFile_size h;
        common_async_run := common_async_run h;
        JobScheduler_job_selector := JobScheduler_job_selector h;
        atexit_registered := true |}, st).

(** ** The host calling through its attributes *)

Inductive call : Type :=
| CallExists (path : string)
| CallSize (path : string)
| CallAsyncRun (c : coroutine)
| CallJobSelector.

Inductive reply : Type :=
| ReplyExists (r : outcome bool)
| ReplySize (r : outcome Z)
| ReplyDone (r : outcome unit).

Definition host_call (h : host) (c : call) (st : state) : reply * state :=
  match c with
  | CallExists p =>
    match IOFile_exists h with
    | Patched => let '(r, st) := patched_iofile_exists p st in (ReplyExists r, st)
    | Original =>
      (ReplyExists (original_iofile_exists p), record_remote (RemoteExists p) st)
    end
  | CallSize p =>
    match IOFile_size h with
    | Patched => let '(r, st) := patched_iofile_size p st in (ReplySize r, st)
    | Original =>
      (ReplySize (original_iofile_size p), record_remote (RemoteSize p) st)
    end
  | CallAsyncRun c =>
    match common_async_run h with
    | Patched => let '(r, st) := patched_async_run c st in (ReplyDone r, st)
    | Original => (ReplyDone (Returns tt), st)
    end
  | CallJobSelector =>
    match JobScheduler_job_selector h with
    | Patched => let '(r, st) := early_inventory_job_selector st in (ReplyDone r, st)
    | Original => (ReplyDone (Returns tt), st)
    end
  end.

Fixpoint host_calls (h : host) (cs : list call) (st : state) : list reply * state :=
  match cs with
  | [] => ([], st)
  | c :: cs =>
    let '(r, st) := host_call h c st in
    let '(rs, st) := host_calls h cs st in
    (r :: rs, st)
  end.

(** A sequence of [exists] queries on the patched method. *)
Fixpoint exists_queries (paths : list string) (st : state) : list (outcome bool) * state :=
  match paths with
  | [] => ([], st)
  | p :: paths =>
    let '(r, st) := patched_iofile_exists p st in
    let '(rs, st) := exists_queries paths st in
    (r :: rs, st)
  end.

(** A sequence of calls of [bulk_inventory_gcs], each one given what the
    world does during it. *)
Fixpoint inventory_runs (rs : list run) (st : state) : state :=
  match rs with
  | [] => st
  | r :: rs => inventory_runs rs (snd (bulk_inventory_gcs r st))
  end.

(** The module's functions that touch [_cache_stats], called in any
    order. *)
Inductive operation : Type :=
| OpInventory (r : run)
| OpExists (path : string)
| OpSize (path : string).

Definition run_operation (o : operation) (st : state) : state :=
  match o with
  | OpInventory r => snd (bulk_inventory_gcs r st)
  | OpExists p => snd (patched_iofile_exists p st)
  | OpSize p => snd (patched_iofile_size p st)
  end.

Definition run_operations (os : list operation) (st : state) : state :=
  fold_left (fun st o => run_operation o st) os st.

(** ** Several callers of [early_inventory_job_selector] at once

    Each caller runs lines 225-230 statement by statement; between two
    statements of one caller any other caller may run.  [AtTest] is
    before the test on line 225, [AtInventory] before line 229 (the flag
    was read as false), [AtSetDone] before line 230, and [Finished b] is
    after the block, [b] telling whether this caller ran the inventory;
    [Crashed e] is a caller that left the block with an exception. *)
Inductive pc : Type :=
| AtTest
| AtInventory
| AtSetDone
| Finished (listed : bool)
| Crashed (e : string).

Definition thread_step (p : pc) (st : state) : pc * state :=
  match p with
  | AtTest =>
    let st := print [LogRule; LogJobSelectorEntered] st in
    if negb (_inventory_done st) then (AtInventory, print [LogJobSelectorInventory] st)
    else (Finished false,
          print [LogJobSelectorExisting (Z.of_nat (size (_bulk_cache st)))] st)
  | AtInventory =>
    match bulk_inventory_gcs (world (list_calls st)) st with
    | (Returns cache, st) => (AtSetDone, set_bulk_cache cache st)
    | (Raises e, st) => (Crashed e, st)
    end
  | AtSetDone =>
    let st := set_inventory_done true st in
    (Finished true,
     print [LogJobSelectorComplete (Z.of_nat (size (_bulk_cache st)))] st)
  | Finished b => (Finished b, st)
  | Crashed e => (Crashed e, st)
  end.

(** The callers' positions and the shared module state. *)
Definition threads_state : Type := list pc * state.

(** Caller [i] runs its next statement; an index that names no caller
    changes nothing. *)
Definition schedule_step (i : nat) (ts : threads_state) : threads_state :=
  match fst ts !! i with
  | Some p =>
    let '(p', st) := thread_step p (snd ts) in
    (<[i := p']> (fst ts), st)
  | None => ts
  end.

(** A schedule names, step by step, the caller that runs next. *)
Definition run_schedule (sched : list nat) (ts : threads_state) : threads_state :=
  fold_left (fun ts i => schedule_step i ts) sched ts.

Definition is_finished (p : pc) : bool :=
  match p with Finished _ => true | _ => false end.

Definition has_listed (p : pc) : bool :=
  match p with AtSetDone | Finished true | Crashed _ => true | _ => false end.

(** ** Vocabulary of the statements *)

(** Whether a lookup of [p] is answered from the dictionary. *)
Definition is_hit (cache : gmap string file_info) (p : string) : bool :=
  bool_decide (is_Some (cache !! p)).

(** The most recently yielded blob of the given name. *)
Definition last_named (n : string) (blobs : list blob) : option blob :=
  find (fun b => bool_decide (blob_name b = n)) (rev blobs).

(** The reply of the unpatched host to a call, and the single-object
    requests that reply costs. *)
Definition original_reply (c : call) : reply :=
  match c with
  | CallExists p => ReplyExists (original_iofile_exists p)
  | CallSize p => ReplySize (original_iofile_size p)
  | CallAsyncRun _ | CallJobSelector => ReplyDone (Returns tt)
  end.

Definition original_requests (c : call) : list remote_call :=
  match c with
  | CallExists p => [RemoteExists p]
  | CallSize p => [RemoteSize p]
  | CallAsyncRun _ | CallJobSelector => []
  end.

(** Whether an operation is an inventory that ended normally. *)
Definition ended_normally (o : operation) : bool :=
  match o with
  | OpInventory (Run (Listing _ None) _) => true
  | _ => false
  end.

(** What the latest successful inventory among [os] wrote to
    [files_cached] and [inventory_time]; [None] when no inventory among
    them ended normally. *)
Definition latest_inventory (os : list operation) : option (Z * Z) :=
  match find ended_normally (rev os) with
  | Some (OpInventory (Run (Listing blobs _) elapsed)) =>
    Some (Z.of_nat (length blobs), elapsed)
  | _ => None
  end.

(** The number of inventories among [os] that ended normally. *)
Definition successful_inventories (os : list operation) : Z :=
  Z.of_nat (length (List.filter ended_normally os)).

(** The host after [apply_patch]. *)
Definition patched : host :=
  {| IOFile_exists := Patched; IOFile_size := Patched;
     common_async_run := Patched; JobScheduler_job_selector := Patched;
     atexit_registered := true |}.

(** How far a caller has come, and how many callers have sent a listing
    request. *)
Definition step_rank (p : pc) : nat :=
  match p with
  | AtTest => 0
  | AtInventory => 1
  | AtSetDone => 2
  | Finished _ => 3
  | Crashed _ => 0
  end.

Definition listed_count (ts : list pc) : nat :=
  length (List.filter has_listed ts).

Definition all_finished (ts : list pc) : bool := forallb is_finished ts.

(** What holds of the callers and the shared state at every moment of a
    run that started with [k] listing requests sent and the flag unset. *)
Definition trigger_invariant (k : nat) (ts : threads_state) : Prop :=
  list_calls (snd ts) = (k + listed_count (fst ts))%nat /\
  (forall i b, fst ts !! i = Some (Finished b) -> _inventory_done (snd ts) = true) /\
  (_inventory_done (snd ts) = true -> exists i, fst ts !! i = Some (Finished true)).

(** ** [print_statistics] (lines 263-292) *)

(** The lines [print_statistics] writes.  [StatHitRate hits total] is the
    line showing [(hits / total) * 100]; the model keeps the two
    integers the quotient is taken of. *)
Inductive stats_line : Type :=
| StatRule
| StatTitle
| StatInventoryOperations (n : Z)
| StatFilesCached (n : Z)
| StatInventoryTime (t : Z)
| StatCacheHits (n : Z)
| StatCacheMisses (n : Z)
| StatHitRate (hits total : Z)
| StatExcellent (hits : Z).

(** The floating-point test [(hits / total) * 100 > 95] of line 287, as a
    function of the two integers. *)
Variable hit_rate_above_95 : Z -> Z -> bool.

(** The function reads [_cache_stats] and assigns nothing. *)
Definition print_statistics (s : cache_stats) : list stats_line :=
  if inventory_calls s =? 0 then []
  else
    [StatRule; StatTitle; StatRule;
     StatInventoryOperations (inventory_calls s);
     StatFilesCached (files_cached s);
     StatInventoryTime (inventory_time s);
     StatCacheHits (cache_hits s);
     StatCacheMisses (cache_misses s)] ++
    (let total_checks := cache_hits s + cache_misses s in
     if 0 <? total_checks then
       StatHitRate (cache_hits s) total_checks ::
       (if hit_rate_above_95 (cache_hits s) total_checks
        then [StatExcellent (cache_hits s)] else [])
     else []) ++
    [StatRule].

(** ** [apply_patch] and the saved originals (lines 50-51, 147, 158-163) *)

(** The globals [_original_iofile_exists] and [_original_iofile_size]:
    [None] until [apply_patch] assigns them the functions the two
    attributes hold at that moment. *)
Record saved_originals : Type := SavedOriginals {
  _original_iofile_exists : option implementation;
  _original_iofile_size : option implementation
}.

Definition no_originals : saved_originals :=
  {| _original_iofile_exists := None; _original_iofile_size := None |}.

(** Lines 158-163. *)
Definition save_and_patch_iofile (h : host) (sv : saved_originals) : host * saved_originals :=
  ({| IOFile_exists := Patched; IOFile_size := Patched;
      common_async_run := common_async_run h;
      JobScheduler_job_selector := JobScheduler_job_selector h;
      atexit_registered := atexit_registered h |},
   {| _original_iofile_exists := Some (IOFile_exists h);
      _original_iofile_size := Some (IOFile_size h) |}).

(** Calling the function [f] on a file, the patched one going through the
    saved global on a miss.  [depth] is the number of nested calls the
    interpreter still allows; a call beyond it raises [RecursionError],
    and calling the global while it is [None] raises [TypeError]. *)
Fixpoint call_iofile_exists (depth : nat) (sv : saved_originals) (f : implementation)
    (path_str : string) (st : state) : outcome bool * state :=
  match f with
  | Original =>
    (original_iofile_exists path_str, record_remote (RemoteExists path_str) st)
  | Patched =>
    match _bulk_cache st !! path_str with
    | Some info =>
      let st := set_cache_stats (add_hit (_cache_stats st)) st in
      (Returns (fi_exists info), st)
    | None =>
      let st := set_cache_stats (add_miss (_cache_stats st)) st in
      match _original_iofile_exists sv with
      | None => (Raises "TypeError", st)
      | Some g =>
        match depth with
        | O => (Raises "RecursionError", st)
        | S depth => call_iofile_exists depth sv g path_str st
        end
      end
    end
  end.

Fixpoint call_iofile_size (depth : nat) (sv : saved_originals) (f : implementation)
    (path_str : string) (st : state) : outcome Z * state :=
  match f with
  | Original =>
    (original_iofile_size path_str, record_remote (RemoteSize path_str) st)
  | Patched =>
    match _bulk_cache st !! path_str with
    | Some info => (Returns (fi_size info), st)
    | None =>
      match _original_iofile_size sv with
      | None => (Raises "TypeError", st)
      | Some g =>
        match depth with
        | O => (Raises "RecursionError", st)
        | S depth => call_iofile_size depth sv g path_str st
        end
      end
    end
  end.

(** ** More vocabulary *)

(** The dictionary a call of [bulk_inventory_gcs] returns and the
    statistics it leaves, by what the store answers. *)
Definition inventory_result (r : run) : gmap string file_info :=
  match run_listing r with
  | Listing blobs None => lv_cache (inventory_loop blobs)
  | Listing _ (Some _) => ∅
  end.

Definition inventory_stats (r : run) (s : cache_stats) : cache_stats :=
  match run_listing r with
  | Listing blobs None => record_inventory (Z.of_nat (length blobs)) (run_elapsed r) s
  | Listing _ (Some _) => s
  end.

(** Two states with the same globals and the same requests sent; they
    may differ in the lines printed. *)
Definition same_globals (st st' : state) : Prop :=
  _bulk_cache st = _bulk_cache st' /\
  _cache_stats st = _cache_stats st' /\
  _inventory_done st = _inventory_done st' /\
  list_calls st = list_calls st' /\
  remote_calls st = remote_calls st'.

(** The three keys of a blob name. *)
Definition key_forms (blob_name : string) : list string :=
  [gcs_uri blob_name; snakemake_path blob_name; local_path blob_name].

Definition is_exists_call (c : call) : bool :=
  match c with CallExists _ => true | _ => false end.

Definition is_query (c : call) : bool :=
  match c with CallExists _ | CallSize _ => true | _ => false end.

(** The schedule in which each of [n] callers runs one statement, in
    turn, three times over. *)
Definition round_robin (n : nat) : list nat := seq 0 n ++ seq 0 n ++ seq 0 n.

(** The progress lines of an inventory of [n] blobs: one at every ten
    thousandth blob. *)
Definition progress_lines (n : nat) : list log_line :=
  map (fun k => LogProcessed (10000 * Z.of_nat k))
      (seq 1 (Z.to_nat (Z.of_nat n / 10000))).

(** The schedule in which each of [n] callers runs its three statements
    before the next caller starts. *)
Definition one_by_one (n : nat) : list nat :=
  flat_map (fun i => [i; i; i]) (seq 0 n).

(** A coroutine as [str] shows the one the scheduler passes. *)
Definition sample_coroutine : coroutine :=
  {| coro_name := Some "update_input_sizes";
     coro_str := "<coroutine object JobScheduler.update_input_sizes at 0x7f3a>" |}.

(** ** Properties *)

(** *** Strings: the three key formats never collide *)

Lemma append_inj_r (p a b : string) : p +:+ a = p +:+ b -> a = b.
Proof.
  induction p as [|c p IH]; simpl; intros H; [exact H|].
  injection H as H. auto.
Qed.

Lemma gcs_uri_inj n1 n2 : gcs_uri n1 = gcs_uri n2 -> n1 = n2.
Proof.
  unfold gcs_uri. intros H.
  do 3 apply append_inj_r in H. exact H.
Qed.

Lemma snakemake_path_inj n1 n2 : snakemake_path n1 = snakemake_path n2 -> n1 = n2.
Proof.
  unfold snakemake_path. intros H.
  do 3 apply append_inj_r in H. exact H.
Qed.

Lemma local_path_inj n1 n2 : local_path n1 = local_path n2 -> n1 = n2.
Proof.
  unfold local_path. intros H.
  do 3 apply append_inj_r in H. exact H.
Qed.

Lemma gcs_uri_snakemake_path n1 n2 : gcs_uri n1 <> snakemake_path n2.
Proof. unfold gcs_uri, snakemake_path. simpl. discriminate. Qed.

Lemma gcs_uri_local_path n1 n2 : gcs_uri n1 <> local_path n2.
Proof. unfold gcs_uri, local_path. simpl. discriminate. Qed.

Lemma snakemake_path_local_path n1 n2 : snakemake_path n1 <> local_path n2.
Proof. unfold snakemake_path, local_path. simpl. discriminate. Qed.

(** *** The inventory loop *)

Lemma inventory_loop_snoc blobs b :
  inventory_loop (blobs ++ [b]) = loop_body (inventory_loop blobs) b.
Proof. unfold inventory_loop. rewrite fold_left_app. reflexivity. Qed.

Lemma inventory_loop_count blobs :
  lv_count (inventory_loop blobs) = Z.of_nat (length blobs).
Proof.
  induction blobs as [|b blobs IH] using rev_ind; [reflexivity|].
  rewrite inventory_loop_snoc, length_app. simpl. rewrite IH. lia.
Qed.

Lemma last_named_snoc n blobs b :
  last_named n (blobs ++ [b]) =
  if bool_decide (blob_name b = n) then Some b else last_named n blobs.
Proof. unfold last_named. rewrite rev_app_distr. reflexivity. Qed.

(** Under each of the three formats, the dictionary holds the record of
    the latest blob of that name, and nothing when no blob has it. *)
Lemma inventory_lookup_gcs_uri blobs n :
  lv_cache (inventory_loop blobs) !! gcs_uri n = file_info_of <$> last_named n blobs.
Proof.
  induction blobs as [|b blobs IH] using rev_ind; [apply lookup_empty|].
  rewrite inventory_loop_snoc, last_named_snoc. simpl. unfold store_blob.
  rewrite lookup_insert_ne by (intros H; symmetry in H; exact (gcs_uri_local_path _ _ H)).
  rewrite lookup_insert_ne by (intros H; symmetry in H; exact (gcs_uri_snakemake_path _ _ H)).
  case_bool_decide as Hn.
  - rewrite Hn. rewrite lookup_insert_eq. reflexivity.
  - rewrite lookup_insert_ne; [exact IH|].
    intros H. apply Hn. exact (gcs_uri_inj _ _ H).
Qed.

Lemma inventory_lookup_snakemake_path blobs n :
  lv_cache (inventory_loop blobs) !! snakemake_path n = file_info_of <$> last_named n blobs.
Proof.
  induction blobs as [|b blobs IH] using rev_ind; [apply lookup_empty|].
  rewrite inventory_loop_snoc, last_named_snoc. simpl. unfold store_blob.
  rewrite lookup_insert_ne by (intros H; symmetry in H; exact (snakemake_path_local_path _ _ H)).
  case_bool_decide as Hn.
  - rewrite Hn. rewrite lookup_insert_eq. reflexivity.
  - rewrite lookup_insert_ne by (intros H; apply Hn; exact (snakemake_path_inj _ _ H)).
    rewrite lookup_insert_ne by apply gcs_uri_snakemake_path.
    exact IH.
Qed.

Lemma inventory_lookup_local_path blobs n :
  lv_cache (inventory_loop blobs) !! local_path n = file_info_of <$> last_named n blobs.
Proof.
  induction blobs as [|b blobs IH] using rev_ind; [apply lookup_empty|].
  rewrite inventory_loop_snoc, last_named_snoc. simpl. unfold store_blob.
  case_bool_decide as Hn.
  - rewrite Hn. rewrite lookup_insert_eq. reflexivity.
  - rewrite lookup_insert_ne by (intros H; apply Hn; exact (local_path_inj _ _ H)).
    rewrite lookup_insert_ne by apply snakemake_path_local_path.
    rewrite lookup_insert_ne by apply gcs_uri_local_path.
    exact IH.
Qed.

(** Every entry of the dictionary is the record of a yielded blob, under
    one of that blob's three keys. *)
Lemma inventory_entries blobs k info :
  lv_cache (inventory_loop blobs) !! k = Some info ->
  exists b, b ∈ blobs /\ info = file_info_of b /\
    (k = gcs_uri (blob_name b) \/ k = snakemake_path (blob_name b)
     \/ k = local_path (blob_name b)).
Proof.
  induction blobs as [|b blobs IH] using rev_ind.
  - unfold inventory_loop. simpl. rewrite lookup_empty. discriminate.
  - rewrite inventory_loop_snoc. simpl. unfold store_blob.
    intros H.
    destruct (decide (local_path (blob_name b) = k)) as [<-|N1].
    { rewrite lookup_insert_eq in H. injection H as <-.
      exists b. split; [apply elem_of_app; right; apply list_elem_of_singleton; reflexivity|]. auto. }
    rewrite lookup_insert_ne in H by exact N1.
    destruct (decide (snakemake_path (blob_name b) = k)) as [<-|N2].
    { rewrite lookup_insert_eq in H. injection H as <-.
      exists b. split; [apply elem_of_app; right; apply list_elem_of_singleton; reflexivity|]. auto. }
    rewrite lookup_insert_ne in H by exact N2.
    destruct (decide (gcs_uri (blob_name b) = k)) as [<-|N3].
    { rewrite lookup_insert_eq in H. injection H as <-.
      exists b. split; [apply elem_of_app; right; apply list_elem_of_singleton; reflexivity|]. auto. }
    rewrite lookup_insert_ne in H by exact N3.
    destruct (IH H) as (b' & Hb' & Hinfo & Hk).
    exists b'. split; [apply elem_of_app; left; exact Hb'|]. auto.
Qed.

Lemma last_named_listed n blobs b :
  b ∈ blobs -> blob_name b = n ->
  exists b', last_named n blobs = Some b' /\ b' ∈ blobs /\ blob_name b' = n.
Proof.
  intros Hb Hn. unfold last_named.
  destruct (find (fun b0 => bool_decide (blob_name b0 = n)) (rev blobs)) as [b'|] eqn:F.
  - apply find_some in F as [Hin Hdec].
    exists b'. split; [reflexivity|]. split.
    + apply list_elem_of_In. apply in_rev. exact Hin.
    + apply bool_decide_eq_true in Hdec. exact Hdec.
  - assert (Hin : In b (rev blobs)).
    { apply in_rev. rewrite rev_involutive. apply list_elem_of_In. exact Hb. }
    pose proof (find_none _ _ F b Hin) as Hf. simpl in Hf.
    apply bool_decide_eq_false in Hf. contradiction.
Qed.

(** *** One call of the inventory *)

Lemma bulk_inventory_gcs_returns r st :
  exists cache, fst (bulk_inventory_gcs r st) = Returns cache.
Proof.
  unfold bulk_inventory_gcs, inventory_try.
  destruct (run_listing r) as [blobs [e|]]; simpl; eauto.
Qed.

(** The call sends one listing request and assigns none of the globals
    other than [_cache_stats], of which it leaves the two lookup counters
    alone. *)
Lemma bulk_inventory_gcs_frame r st :
  let st' := snd (bulk_inventory_gcs r st) in
  list_calls st' = S (list_calls st) /\
  _inventory_done st' = _inventory_done st /\
  _bulk_cache st' = _bulk_cache st /\
  remote_calls st' = remote_calls st /\
  cache_hits (_cache_stats st') = cache_hits (_cache_stats st) /\
  cache_misses (_cache_stats st') = cache_misses (_cache_stats st).
Proof.
  unfold bulk_inventory_gcs, inventory_try.
  destruct (run_listing r) as [blobs [e|]]; simpl; auto 10.
Qed.

Lemma bulk_inventory_gcs_success r st blobs :
  run_listing r = Listing blobs None ->
  fst (bulk_inventory_gcs r st) = Returns (lv_cache (inventory_loop blobs)) /\
  _cache_stats (snd (bulk_inventory_gcs r st)) =
    record_inventory (Z.of_nat (length blobs)) (run_elapsed r) (_cache_stats st).
Proof.
  intros H. unfold bulk_inventory_gcs, inventory_try. rewrite H. simpl.
  rewrite inventory_loop_count. auto.
Qed.

Lemma bulk_inventory_gcs_failure r st blobs e :
  run_listing r = Listing blobs (Some e) ->
  fst (bulk_inventory_gcs r st) = Returns ∅ /\
  _cache_stats (snd (bulk_inventory_gcs r st)) = _cache_stats st /\
  LogError e ∈ stderr (snd (bulk_inventory_gcs r st)) /\
  LogTraceback e ∈ stderr (snd (bulk_inventory_gcs r st)).
Proof.
  intros H. unfold bulk_inventory_gcs, inventory_try. rewrite H. simpl.
  repeat split; rewrite !elem_of_app; right.
  - apply list_elem_of_here.
  - apply list_elem_of_further, list_elem_of_here.
Qed.

(** *** The first run of a call site *)

Lemma early_inventory_job_selector_first st :
  _inventory_done st = false ->
  exists cache,
    fst (bulk_inventory_gcs (world (list_calls st))
           (print [LogJobSelectorInventory] (print [LogRule; LogJobSelectorEntered] st)))
      = Returns cache /\
    fst (early_inventory_job_selector st) = Returns tt /\
    _bulk_cache (snd (early_inventory_job_selector st)) = cache /\
    _inventory_done (snd (early_inventory_job_selector st)) = true /\
    list_calls (snd (early_inventory_job_selector st)) = S (list_calls st) /\
    remote_calls (snd (early_inventory_job_selector st)) = remote_calls st.
Proof.
  intros Hd. unfold early_inventory_job_selector. simpl. rewrite Hd. simpl.
  set (st0 := print [LogJobSelectorInventory] (print [LogRule; LogJobSelectorEntered] st)).
  destruct (bulk_inventory_gcs_returns (world (list_calls st)) st0) as [cache Hc].
  pose proof (bulk_inventory_gcs_frame (world (list_calls st)) st0) as F.
  destruct (bulk_inventory_gcs (world (list_calls st)) st0) as [o st1].
  simpl in Hc, F. subst o. exists cache. simpl.
  destruct F as (F1 & _ & _ & F4 & _). auto 10.
Qed.

(** *** Calls once the flag is set *)

Lemma host_call_done c st :
  _inventory_done st = true ->
  _inventory_done (snd (host_call patched c st)) = true /\
  list_calls (snd (host_call patched c st)) = list_calls st /\
  _bulk_cache (snd (host_call patched c st)) = _bulk_cache st.
Proof.
  intros Hd. destruct c as [p|p|c|]; simpl.
  - unfold patched_iofile_exists. destruct (_bulk_cache st !! p); simpl; auto.
  - unfold patched_iofile_size. destruct (_bulk_cache st !! p); simpl; auto.
  - unfold patched_async_run. simpl.
    destruct (contains _ _); simpl; [rewrite Hd|]; simpl; auto.
  - unfold early_inventory_job_selector. simpl. rewrite Hd. simpl. auto.
Qed.

Lemma host_calls_cons h c cs st :
  host_calls h (c :: cs) st =
  (fst (host_call h c st) :: fst (host_calls h cs (snd (host_call h c st))),
   snd (host_calls h cs (snd (host_call h c st)))).
Proof.
  simpl. destruct (host_call h c st) as [r st1]. simpl.
  destruct (host_calls h cs st1) as [rs st2]. reflexivity.
Qed.

Lemma host_calls_done cs st :
  _inventory_done st = true ->
  _inventory_done (snd (host_calls patched cs st)) = true /\
  list_calls (snd (host_calls patched cs st)) = list_calls st /\
  _bulk_cache (snd (host_calls patched cs st)) = _bulk_cache st.
Proof.
  revert st. induction cs as [|c cs IH]; intros st Hd; [simpl; auto|].
  rewrite host_calls_cons. simpl.
  destruct (host_call_done c st Hd) as (D & L & C).
  destruct (IH _ D) as (D' & L' & C').
  rewrite D', L', C', L, C. auto.
Qed.

(** With the flag set and an empty dictionary the patched host answers
    every call as the unpatched one would. *)
Lemma host_call_degraded c st :
  _inventory_done st = true -> _bulk_cache st = ∅ ->
  fst (host_call patched c st) = original_reply c /\
  remote_calls (snd (host_call patched c st)) = remote_calls st ++ original_requests c.
Proof.
  intros Hd He. destruct c as [p|p|c|]; simpl.
  - unfold patched_iofile_exists. rewrite He, lookup_empty. simpl. auto.
  - unfold patched_iofile_size. rewrite He, lookup_empty. simpl. auto.
  - unfold patched_async_run. simpl.
    destruct (contains _ _); simpl; [rewrite Hd|]; simpl; rewrite app_nil_r; auto.
  - unfold early_inventory_job_selector. simpl. rewrite Hd. simpl.
    rewrite app_nil_r; auto.
Qed.

Lemma host_calls_degraded cs st :
  _inventory_done st = true -> _bulk_cache st = ∅ ->
  fst (host_calls patched cs st) = map original_reply cs /\
  remote_calls (snd (host_calls patched cs st)) =
    remote_calls st ++ concat (map original_requests cs).
Proof.
  revert st. induction cs as [|c cs IH]; intros st Hd He.
  - simpl. rewrite app_nil_r. auto.
  - rewrite host_calls_cons. simpl.
    destruct (host_call_done c st Hd) as (D & _ & C).
    destruct (host_call_degraded c st Hd He) as (R & Q).
    rewrite He in C.
    destruct (IH _ D C) as (R' & Q').
    rewrite R, R', Q', Q, app_assoc. auto.
Qed.

(** *** A sequence of [exists] queries *)

Lemma exists_queries_cons p paths st :
  snd (exists_queries (p :: paths) st) =
  snd (exists_queries paths (snd (patched_iofile_exists p st))).
Proof.
  simpl. destruct (patched_iofile_exists p st) as [r st1]. simpl.
  destruct (exists_queries paths st1) as [rs st2]. reflexivity.
Qed.

Lemma patched_iofile_exists_cache p st :
  _bulk_cache (snd (patched_iofile_exists p st)) = _bulk_cache st.
Proof. unfold patched_iofile_exists. destruct (_bulk_cache st !! p); reflexivity. Qed.

Lemma patched_iofile_size_cache p st :
  _bulk_cache (snd (patched_iofile_size p st)) = _bulk_cache st.
Proof. unfold patched_iofile_size. destruct (_bulk_cache st !! p); reflexivity. Qed.

Lemma patched_iofile_exists_counters p st :
  let st' := snd (patched_iofile_exists p st) in
  cache_hits (_cache_stats st') =
    cache_hits (_cache_stats st) + (if is_hit (_bulk_cache st) p then 1 else 0) /\
  cache_misses (_cache_stats st') =
    cache_misses (_cache_stats st) + (if is_hit (_bulk_cache st) p then 0 else 1).
Proof.
  unfold patched_iofile_exists, is_hit.
  destruct (_bulk_cache st !! p) as [info|] eqn:E; simpl.
  - rewrite ?bool_decide_eq_true_2 by eauto. lia.
  - rewrite ?bool_decide_eq_false_2 by (intros [x Hx]; discriminate). lia.
Qed.

Lemma filter_hit_miss_length (f : string -> bool) paths :
  Z.of_nat (length (List.filter f paths)) +
  Z.of_nat (length (List.filter (fun p => negb (f p)) paths)) =
  Z.of_nat (length paths).
Proof.
  induction paths as [|p paths IH]; [reflexivity|].
  simpl. destruct (f p); simpl; lia.
Qed.

(** *** What a returned dictionary can be *)

Lemma bulk_inventory_gcs_cache r st cache :
  fst (bulk_inventory_gcs r st) = Returns cache ->
  (exists blobs, run_listing r = Listing blobs None /\
                 cache = lv_cache (inventory_loop blobs)) \/
  (exists blobs e, run_listing r = Listing blobs (Some e) /\ cache = ∅).
Proof.
  unfold bulk_inventory_gcs, inventory_try.
  destruct (run_listing r) as [blobs [e|]]; simpl; intros H; injection H as <-.
  - right. eauto.
  - left. eauto.
Qed.

Lemma inventory_three_keys blobs n :
  lv_cache (inventory_loop blobs) !! gcs_uri n =
    lv_cache (inventory_loop blobs) !! snakemake_path n /\
  lv_cache (inventory_loop blobs) !! snakemake_path n =
    lv_cache (inventory_loop blobs) !! local_path n.
Proof.
  rewrite inventory_lookup_gcs_uri, inventory_lookup_snakemake_path,
    inventory_lookup_local_path. auto.
Qed.

Lemma inventory_key_forms blobs n k :
  k ∈ [gcs_uri n; snakemake_path n; local_path n] ->
  lv_cache (inventory_loop blobs) !! k = file_info_of <$> last_named n blobs.
Proof.
  intros Hk. rewrite !elem_of_cons in Hk.
  destruct Hk as [->|[->|[->|Hk]]].
  - apply inventory_lookup_gcs_uri.
  - apply inventory_lookup_snakemake_path.
  - apply inventory_lookup_local_path.
  - apply elem_of_nil in Hk. contradiction.
Qed.

Lemma unique_name_same_blob (blobs : list blob) (b b' : blob) :
  NoDup (map blob_name blobs) ->
  b ∈ blobs -> b' ∈ blobs -> blob_name b' = blob_name b -> b' = b.
Proof.
  induction blobs as [|x blobs IH]; simpl; intros ND Hb Hb' Hn.
  - apply elem_of_nil in Hb. contradiction.
  - apply NoDup_cons in ND as [Hx ND].
    apply elem_of_cons in Hb as [->|Hb];
      apply elem_of_cons in Hb' as [->|Hb'].
    + reflexivity.
    + exfalso. apply Hx. rewrite <- Hn.
      apply (list_elem_of_fmap_2 blob_name). exact Hb'.
    + exfalso. apply Hx. rewrite Hn.
      apply (list_elem_of_fmap_2 blob_name). exact Hb.
    + auto.
Qed.

(** *** The [size] lookup and the counters *)

Lemma patched_iofile_size_stats p st :
  _cache_stats (snd (patched_iofile_size p st)) = _cache_stats st.
Proof. unfold patched_iofile_size. destruct (_bulk_cache st !! p); reflexivity. Qed.

(** *** The statistics across operations *)

Lemma run_operations_snoc os o st :
  run_operations (os ++ [o]) st = run_operation o (run_operations os st).
Proof. unfold run_operations. rewrite fold_left_app. reflexivity. Qed.

Lemma latest_inventory_snoc os o :
  latest_inventory (os ++ [o]) =
  match o with
  | OpInventory (Run (Listing blobs None) elapsed) =>
    Some (Z.of_nat (length blobs), elapsed)
  | _ => latest_inventory os
  end.
Proof.
  unfold latest_inventory. rewrite rev_app_distr. simpl.
  destruct o as [[[blobs [e|]] elapsed]|p|p]; reflexivity.
Qed.

Lemma successful_inventories_snoc os o :
  successful_inventories (os ++ [o]) =
  successful_inventories os + (if ended_normally o then 1 else 0).
Proof.
  unfold successful_inventories. rewrite List.filter_app, length_app. simpl.
  destruct (ended_normally o); simpl; lia.
Qed.

(** *** The unpatched host *)

Lemma host_calls_unpatched cs st :
  fst (host_calls unpatched cs st) = map original_reply cs /\
  list_calls (snd (host_calls unpatched cs st)) = list_calls st /\
  _bulk_cache (snd (host_calls unpatched cs st)) = _bulk_cache st /\
  _inventory_done (snd (host_calls unpatched cs st)) = _inventory_done st /\
  remote_calls (snd (host_calls unpatched cs st)) =
    remote_calls st ++ concat (map original_requests cs).
Proof.
  revert st. induction cs as [|c cs IH]; intros st.
  - simpl. rewrite app_nil_r. auto.
  - rewrite host_calls_cons.
    destruct (IH (snd (host_call unpatched c st))) as (R & L & C & D & Q).
    simpl fst. simpl snd. rewrite R, L, C, D, Q.
    destruct c as [p|p|c|]; simpl; rewrite <- ?app_assoc; auto.
Qed.

(** C1: when the listing request fails, [bulk_inventory_gcs] catches the
    exception, prints its text and a traceback, and returns the empty
    dictionary instead of raising; the call site that asked for the
    inventory returns normally and installs that empty dictionary, and
    from then on every [exists] and [size] query is answered by the saved
    original method, with exactly the original's result: the patch adds
    no exception of its own. *)
Theorem listing_failure_degrades_to_fallback (st : state) (blobs : list blob) (e : string) :
  _inventory_done st = false ->
  run_listing (world (list_calls st)) = Listing blobs (Some e) ->
  (forall st0,
     fst (bulk_inventory_gcs (world (list_calls st)) st0) = Returns ∅ /\
     LogError e ∈ stderr (snd (bulk_inventory_gcs (world (list_calls st)) st0)) /\
     LogTraceback e ∈ stderr (snd (bulk_inventory_gcs (world (list_calls st)) st0))) /\
  fst (early_inventory_job_selector st) = Returns tt /\
  _bulk_cache (snd (early_inventory_job_selector st)) = ∅ /\
  forall cs,
    fst (host_calls patched cs (snd (early_inventory_job_selector st))) =
      map original_reply cs /\
    remote_calls (snd (host_calls patched cs (snd (early_inventory_job_selector st)))) =
      remote_calls st ++ concat (map original_requests cs).
Proof.
  intros Hd Hf.
  assert (B : forall st0,
     fst (bulk_inventory_gcs (world (list_calls st)) st0) = Returns ∅ /\
     LogError e ∈ stderr (snd (bulk_inventory_gcs (world (list_calls st)) st0)) /\
     LogTraceback e ∈ stderr (snd (bulk_inventory_gcs (world (list_calls st)) st0))).
  { intros st0.
    destruct (bulk_inventory_gcs_failure _ st0 _ _ Hf) as (B1 & _ & B3 & B4). auto. }
  split; [exact B|].
  destruct (early_inventory_job_selector_first st Hd)
    as (cache & Hc & Hr & Hcache & Hdone & _ & Hrem).
  destruct (B (print [LogJobSelectorInventory]
                 (print [LogRule; LogJobSelectorEntered] st))) as (B1 & _).
  rewrite B1 in Hc. injection Hc as <-.
  split; [exact Hr|]. split; [exact Hcache|].
  intros cs. rewrite <- Hrem. apply host_calls_degraded; assumption.
Qed.

(** C3: an [exists] query whose key is in the dictionary adds one to the
    hit counter and returns the stored flag without a remote call; one
    whose key is absent adds one to the miss counter and calls the saved
    original.  Hence after any sequence of n queries, h of them hits and
    m misses (h + m = n), the counters have grown by exactly h and m. *)
Theorem exists_hit_miss_accounting (paths : list string) (st : state) :
  (forall p info, _bulk_cache st !! p = Some info ->
     fst (patched_iofile_exists p st) = Returns (fi_exists info) /\
     cache_hits (_cache_stats (snd (patched_iofile_exists p st))) =
       cache_hits (_cache_stats st) + 1 /\
     cache_misses (_cache_stats (snd (patched_iofile_exists p st))) =
       cache_misses (_cache_stats st) /\
     remote_calls (snd (patched_iofile_exists p st)) = remote_calls st) /\
  (forall p, _bulk_cache st !! p = None ->
     fst (patched_iofile_exists p st) = original_iofile_exists p /\
     cache_hits (_cache_stats (snd (patched_iofile_exists p st))) =
       cache_hits (_cache_stats st) /\
     cache_misses (_cache_stats (snd (patched_iofile_exists p st))) =
       cache_misses (_cache_stats st) + 1 /\
     remote_calls (snd (patched_iofile_exists p st)) =
       remote_calls st ++ [RemoteExists p]) /\
  let h := Z.of_nat (length (List.filter (is_hit (_bulk_cache st)) paths)) in
  let m := Z.of_nat (length (List.filter (fun p => negb (is_hit (_bulk_cache st) p)) paths)) in
  h + m = Z.of_nat (length paths) /\
  cache_hits (_cache_stats (snd (exists_queries paths st))) =
    cache_hits (_cache_stats st) + h /\
  cache_misses (_cache_stats (snd (exists_queries paths st))) =
    cache_misses (_cache_stats st) + m.
Proof.
  split; [|split].
  - intros p info H. unfold patched_iofile_exists. rewrite H. simpl. auto.
  - intros p H. unfold patched_iofile_exists. rewrite H. simpl. auto.
  - simpl. split; [apply filter_hit_miss_length|].
    revert st. induction paths as [|p paths IH]; intros st.
    + simpl. lia.
    + rewrite exists_queries_cons.
      destruct (IH (snd (patched_iofile_exists p st))) as (IHh & IHm).
      rewrite IHh, IHm, patched_iofile_exists_cache.
      destruct (patched_iofile_exists_counters p st) as (Ch & Cm).
      rewrite Ch, Cm. simpl.
      destruct (is_hit (_bulk_cache st) p); simpl length; lia.
Qed.

(** C4: from a state in which no inventory has run, the first call of
    [early_inventory_job_selector] sends exactly one listing request and
    sets [_inventory_done], whether the listing succeeds or fails; a
    second call sends none and leaves the dictionary, the statistics and
    the flag as they are, so the two calls send one request in total; and
    no later call of any patched function sends another. *)
Theorem inventory_trigger_idempotent (st : state) :
  _inventory_done st = false ->
  let first := early_inventory_job_selector st in
  let second := early_inventory_job_selector (snd first) in
  fst first = Returns tt /\
  list_calls (snd first) = S (list_calls st) /\
  _inventory_done (snd first) = true /\
  fst second = Returns tt /\
  list_calls (snd second) = S (list_calls st) /\
  _inventory_done (snd second) = true /\
  _bulk_cache (snd second) = _bulk_cache (snd first) /\
  _cache_stats (snd second) = _cache_stats (snd first) /\
  forall cs, list_calls (snd (host_calls patched cs (snd first))) = S (list_calls st).
Proof.
  intros Hd. simpl.
  destruct (early_inventory_job_selector_first st Hd)
    as (cache & _ & Hr & _ & Hdone & Hl & _).
  split; [exact Hr|]. split; [exact Hl|]. split; [exact Hdone|].
  set (st1 := snd (early_inventory_job_selector st)) in *.
  assert (S2 : early_inventory_job_selector st1 =
               (Returns tt,
                print [LogJobSelectorCalling]
                  (print [LogJobSelectorExisting (Z.of_nat (size (_bulk_cache st1)))]
                     (print [LogRule; LogJobSelectorEntered] st1)))).
  { unfold early_inventory_job_selector. simpl. rewrite Hdone. reflexivity. }
  rewrite S2. simpl. repeat split; try assumption.
  intros cs. destruct (host_calls_done cs st1 Hdone) as (_ & L & _).
  rewrite L. exact Hl.
Qed.

(** C7: no lookup writes to the dictionary: after an [exists] or a
    [size] query, hit or miss, [_bulk_cache] is what it was.  In
    particular the answer of the original method on a miss is not stored,
    and the same query asked again calls the original again. *)
Theorem lookups_leave_snapshot_unchanged (p : string) (st : state) :
  _bulk_cache (snd (patched_iofile_exists p st)) = _bulk_cache st /\
  _bulk_cache (snd (patched_iofile_size p st)) = _bulk_cache st /\
  (_bulk_cache st !! p = None ->
   remote_calls (snd (patched_iofile_exists p (snd (patched_iofile_exists p st)))) =
     remote_calls st ++ [RemoteExists p; RemoteExists p] /\
   remote_calls (snd (patched_iofile_size p (snd (patched_iofile_size p st)))) =
     remote_calls st ++ [RemoteSize p; RemoteSize p]).
Proof.
  split; [apply patched_iofile_exists_cache|].
  split; [apply patched_iofile_size_cache|].
  intros H. unfold patched_iofile_exists, patched_iofile_size.
  rewrite H. simpl. rewrite H. simpl. rewrite <- !app_assoc. auto.
Qed.

(** C5: in a dictionary returned by the inventory the three keys of one
    object name (the [gs://] form, the [.snakemake/storage] form and the
    local form) always hold the same value, so one of them cannot miss
    while another hits.  For every blob the listing yielded, an [exists]
    or [size] query under any of the three keys is answered from the
    dictionary, without a remote call, with the same flag and the same
    size, which are those of the blob itself when names are unique. *)
Theorem three_key_forms_agree
    (r : run) (st0 : state) (cache : gmap string file_info) (n : string) :
  fst (bulk_inventory_gcs r st0) = Returns cache ->
  cache !! gcs_uri n = cache !! snakemake_path n /\
  cache !! snakemake_path n = cache !! local_path n /\
  forall blobs b,
    run_listing r = Listing blobs None -> b ∈ blobs -> blob_name b = n ->
    exists b',
      last_named n blobs = Some b' /\
      (NoDup (map blob_name blobs) -> b' = b) /\
      forall k st,
        k ∈ [gcs_uri n; snakemake_path n; local_path n] ->
        _bulk_cache st = cache ->
        cache !! k = Some (file_info_of b') /\
        fst (patched_iofile_exists k st) = Returns true /\
        fst (patched_iofile_size k st) = Returns (blob_size b') /\
        remote_calls (snd (patched_iofile_exists k st)) = remote_calls st /\
        remote_calls (snd (patched_iofile_size k st)) = remote_calls st.
Proof.
  intros Hc.
  destruct (bulk_inventory_gcs_cache _ _ _ Hc) as [(blobs & Hl & ->)|(blobs & e & Hl & ->)].
  - destruct (inventory_three_keys blobs n) as (K1 & K2).
    split; [exact K1|]. split; [exact K2|].
    intros blobs' b Hl' Hb Hn. rewrite Hl in Hl'. injection Hl' as <-.
    destruct (last_named_listed n blobs b Hb Hn) as (b' & Hlast & Hb' & Hn').
    exists b'. split; [exact Hlast|]. split.
    { intros ND. apply (unique_name_same_blob blobs); congruence. }
    intros k st Hk Hst.
    pose proof (inventory_key_forms blobs n k Hk) as Hlook.
    rewrite Hlast in Hlook. simpl in Hlook.
    split; [exact Hlook|].
    unfold patched_iofile_exists, patched_iofile_size.
    rewrite Hst, Hlook. simpl. auto.
  - rewrite !lookup_empty. split; [reflexivity|]. split; [reflexivity|].
    intros blobs' b Hl'. rewrite Hl in Hl'. discriminate.
Qed.

(** C6: in a dictionary returned by the inventory no entry has its
    existence flag false; [exists] returns true under every key stored
    for a blob the listing yielded; and when [exists] returns false the
    key was not in the dictionary, was not a key of any yielded blob, and
    the false came from the saved original method. *)
Theorem listed_keys_exist_and_false_only_by_fallback
    (r : run) (st0 : state) (cache : gmap string file_info) :
  fst (bulk_inventory_gcs r st0) = Returns cache ->
  (forall k info, cache !! k = Some info -> fi_exists info = true) /\
  (forall blobs b k st,
     run_listing r = Listing blobs None -> b ∈ blobs ->
     k ∈ [gcs_uri (blob_name b); snakemake_path (blob_name b); local_path (blob_name b)] ->
     _bulk_cache st = cache ->
     fst (patched_iofile_exists k st) = Returns true) /\
  (forall p st,
     _bulk_cache st = cache ->
     fst (patched_iofile_exists p st) = Returns false ->
     cache !! p = None /\
     original_iofile_exists p = Returns false /\
     remote_calls (snd (patched_iofile_exists p st)) =
       remote_calls st ++ [RemoteExists p] /\
     forall blobs b,
       run_listing r = Listing blobs None -> b ∈ blobs ->
       p ∉ [gcs_uri (blob_name b); snakemake_path (blob_name b); local_path (blob_name b)]).
Proof.
  intros Hc.
  assert (E : forall k info, cache !! k = Some info -> fi_exists info = true).
  { destruct (bulk_inventory_gcs_cache _ _ _ Hc) as [(blobs & Hl & ->)|(blobs & e & Hl & ->)].
    - intros k info H. destruct (inventory_entries _ _ _ H) as (b & _ & -> & _).
      reflexivity.
    - intros k info H. rewrite lookup_empty in H. discriminate. }
  assert (L : forall blobs b k,
     run_listing r = Listing blobs None -> b ∈ blobs ->
     k ∈ [gcs_uri (blob_name b); snakemake_path (blob_name b); local_path (blob_name b)] ->
     exists info, cache !! k = Some info).
  { intros blobs b k Hl Hb Hk.
    destruct (bulk_inventory_gcs_cache _ _ _ Hc) as [(blobs' & Hl' & ->)|(blobs' & e & Hl' & ->)];
      rewrite Hl in Hl'; [injection Hl' as <-|discriminate].
    rewrite (inventory_key_forms blobs _ k Hk).
    destruct (last_named_listed _ blobs b Hb eq_refl) as (b' & -> & _).
    simpl. eauto. }
  split; [exact E|]. split.
  - intros blobs b k st Hl Hb Hk Hst.
    destruct (L blobs b k Hl Hb Hk) as (info & Hinfo).
    unfold patched_iofile_exists. rewrite Hst, Hinfo. simpl.
    rewrite (E _ _ Hinfo). reflexivity.
  - intros p st Hst Hfalse. unfold patched_iofile_exists in *.
    rewrite Hst in *. destruct (cache !! p) as [info|] eqn:Hp; simpl in *.
    + rewrite (E _ _ Hp) in Hfalse. discriminate.
    + repeat split; try assumption.
      intros blobs b Hl Hb Hk.
      destruct (L blobs b p Hl Hb Hk) as (info & Hinfo). congruence.
Qed.

(** C8 (as amended): across any sequence of inventories and lookups the
    hit, miss and inventory-run counters never decrease, the run counter
    growing by one for each inventory that ends normally; the files
    figure and the inventory time are both those of the latest inventory
    that ended normally (and keep their old values when there is none):
    the time is assigned, not added up. *)
Theorem statistics_across_operations (os : list operation) (st : state) :
  let s := _cache_stats st in
  let s' := _cache_stats (run_operations os st) in
  cache_hits s <= cache_hits s' /\
  cache_misses s <= cache_misses s' /\
  inventory_calls s <= inventory_calls s' /\
  inventory_calls s' = inventory_calls s + successful_inventories os /\
  (files_cached s', inventory_time s') =
    default (files_cached s, inventory_time s) (latest_inventory os).
Proof.
  simpl. induction os as [|o os IH] using rev_ind.
  - unfold successful_inventories. simpl. repeat split; lia.
  - rewrite run_operations_snoc, latest_inventory_snoc, successful_inventories_snoc.
    destruct IH as (H & M & I & I' & F).
    set (st1 := run_operations os st) in *.
    assert (0 <= successful_inventories os) by (unfold successful_inventories; lia).
    destruct o as [r|p|p]; simpl.
    + destruct (bulk_inventory_gcs_frame r st1) as (_ & _ & _ & _ & Hh & Hm).
      simpl in Hh, Hm. rewrite Hh, Hm.
      destruct r as [[blobs [e|]] elapsed].
      * destruct (bulk_inventory_gcs_failure (Run (Listing blobs (Some e)) elapsed)
                    st1 blobs e eq_refl) as (_ & S & _).
        rewrite S. simpl. repeat split; try lia. exact F.
      * destruct (bulk_inventory_gcs_success (Run (Listing blobs None) elapsed)
                    st1 blobs eq_refl) as (_ & S).
        rewrite S. simpl. repeat split; lia.
    + destruct (patched_iofile_exists_counters p st1) as (Hh & Hm). simpl in Hh, Hm.
      assert (Hrest : inventory_calls (_cache_stats (snd (patched_iofile_exists p st1)))
                      = inventory_calls (_cache_stats st1) /\
                      files_cached (_cache_stats (snd (patched_iofile_exists p st1)))
                      = files_cached (_cache_stats st1) /\
                      inventory_time (_cache_stats (snd (patched_iofile_exists p st1)))
                      = inventory_time (_cache_stats st1)).
      { unfold patched_iofile_exists. destruct (_bulk_cache st1 !! p); simpl; auto. }
      destruct Hrest as (R1 & R2 & R3). rewrite Hh, Hm, R1, R2, R3.
      destruct (is_hit (_bulk_cache st1) p); repeat split; try lia; exact F.
    + rewrite patched_iofile_size_stats. repeat split; try lia. exact F.
Qed.

(** C9: with [GCS_JOB_SCHEDULER_PATCH_DISABLE] set to 1 the module body
    stops at [sys.exit(0)] before [apply_patch] runs, so it replaces none
    of the host's functions: whatever calls follow, no listing request is
    ever sent, the dictionary stays empty, and every [exists] and [size]
    query goes straight to the original method, whose result is the
    reply. *)
Theorem disabled_patch_is_pass_through :
  PATCH_DISABLED = true ->
  fst (fst (import_module unpatched)) = SystemExit 0 /\
  snd (fst (import_module unpatched)) = unpatched /\
  forall cs,
    let h := snd (fst (import_module unpatched)) in
    let st := snd (import_module unpatched) in
    fst (host_calls h cs st) = map original_reply cs /\
    list_calls (snd (host_calls h cs st)) = O /\
    _bulk_cache (snd (host_calls h cs st)) = ∅ /\
    _inventory_done (snd (host_calls h cs st)) = false /\
    remote_calls (snd (host_calls h cs st)) = concat (map original_requests cs).
Proof.
  intros Hd. unfold import_module. rewrite Hd. simpl.
  split; [reflexivity|]. split; [reflexivity|].
  intros cs.
  destruct (host_calls_unpatched cs (print [LogDisabled] initial_state))
    as (R & L & C & D & Q).
  rewrite R, L, C, D, Q. simpl. auto.
Qed.

(** *** Several callers at once *)

Lemma listed_count_insert (ts : list pc) (i : nat) (p p' : pc) :
  ts !! i = Some p ->
  (listed_count (<[i := p']> ts) + (if has_listed p then 1 else 0) =
   listed_count ts + (if has_listed p' then 1 else 0))%nat.
Proof.
  unfold listed_count. revert i.
  induction ts as [|q ts IH]; intros i H; [discriminate|].
  destruct i as [|i]; simpl in *.
  - injection H as ->. destruct (has_listed p), (has_listed p'); simpl; lia.
  - specialize (IH i H). destruct (has_listed q); simpl; lia.
Qed.

Lemma listed_count_le (ts : list pc) : (listed_count ts <= length ts)%nat.
Proof. unfold listed_count. apply List.filter_length_le. Qed.

Lemma listed_count_pos (ts : list pc) (i : nat) (p : pc) :
  ts !! i = Some p -> has_listed p = true -> (1 <= listed_count ts)%nat.
Proof.
  unfold listed_count. revert i.
  induction ts as [|q ts IH]; intros i H Hp; [discriminate|].
  destruct i as [|i]; simpl in *.
  - injection H as ->. rewrite Hp. simpl. lia.
  - specialize (IH i H Hp). destruct (has_listed q); simpl; lia.
Qed.

Lemma run_schedule_snoc sched i ts :
  run_schedule (sched ++ [i]) ts = schedule_step i (run_schedule sched ts).
Proof. unfold run_schedule. rewrite fold_left_app. reflexivity. Qed.

Lemma schedule_step_length i ts :
  length (fst (schedule_step i ts)) = length (fst ts).
Proof.
  unfold schedule_step. destruct (fst ts !! i) as [p|]; [|reflexivity].
  destruct (thread_step p (snd ts)). simpl. apply length_insert.
Qed.

Lemma run_schedule_length sched ts :
  length (fst (run_schedule sched ts)) = length (fst ts).
Proof.
  induction sched as [|i sched IH] using rev_ind; [reflexivity|].
  rewrite run_schedule_snoc, schedule_step_length. exact IH.
Qed.

(** Overwriting a caller that has not finished with a position that is
    not [Finished] neither adds nor removes a finished caller. *)
Lemma finished_before_insert (ts : list pc) (i j : nat) (p' : pc) (b : bool) :
  (forall b', p' <> Finished b') ->
  <[i := p']> ts !! j = Some (Finished b) -> ts !! j = Some (Finished b).
Proof.
  intros Hp' Hj. destruct (decide (i = j)) as [->|Hne].
  - destruct (decide (j < length ts)%nat) as [Hlt|Hge].
    + rewrite list_lookup_insert_eq in Hj by exact Hlt.
      injection Hj as Hj. exfalso. exact (Hp' b Hj).
    + rewrite list_insert_ge in Hj by lia. exact Hj.
  - rewrite list_lookup_insert_ne in Hj by exact Hne. exact Hj.
Qed.

Lemma finished_after_insert (ts : list pc) (i j : nat) (p p' : pc) (b : bool) :
  ts !! i = Some p -> (forall b', p <> Finished b') ->
  ts !! j = Some (Finished b) -> <[i := p']> ts !! j = Some (Finished b).
Proof.
  intros Hi Hp Hj. rewrite list_lookup_insert_ne; [exact Hj|].
  intros ->. rewrite Hi in Hj. injection Hj as Hj. exact (Hp b Hj).
Qed.

Lemma trigger_invariant_step k i ts :
  trigger_invariant k ts -> trigger_invariant k (schedule_step i ts).
Proof.
  destruct ts as [ts st]. unfold trigger_invariant, schedule_step. simpl.
  intros (HL & HF & HD).
  destruct (ts !! i) as [p|] eqn:Hi; [|simpl; auto].
  pose proof (listed_count_insert ts i p) as HC.
  destruct p as [| | |b|e]; simpl.
  - (* line 225: the test of the flag *)
    destruct (_inventory_done st) eqn:Hd; simpl.
    + specialize (HC (Finished false) Hi). simpl in HC.
      split; [lia|]. split; [auto|].
      intros _. destruct (HD eq_refl) as (j & Hj). exists j.
      apply (finished_after_insert ts i j AtTest); [exact Hi|discriminate|exact Hj].
    + specialize (HC AtInventory Hi). simpl in HC.
      split; [lia|]. split; [|intros Hd'; simpl in Hd'; congruence].
      intros j b Hj. apply finished_before_insert in Hj; [eauto|discriminate].
  - (* line 229: the inventory and the assignment of the dictionary *)
    pose proof (bulk_inventory_gcs_frame (world (list_calls st)) st) as F.
    destruct (bulk_inventory_gcs (world (list_calls st)) st) as [[cache|e] st1];
      simpl in F; destruct F as (F1 & F2 & _); simpl; rewrite F2.
    + specialize (HC AtSetDone Hi). simpl in HC.
      split; [lia|]. split.
      * intros j b Hj. apply finished_before_insert in Hj; [eauto|discriminate].
      * intros Hd. destruct (HD Hd) as (j & Hj). exists j.
        apply (finished_after_insert ts i j AtInventory); [exact Hi|discriminate|exact Hj].
    + specialize (HC (Crashed e) Hi). simpl in HC.
      split; [lia|]. split.
      * intros j b Hj. apply finished_before_insert in Hj; [eauto|discriminate].
      * intros Hd. destruct (HD Hd) as (j & Hj). exists j.
        apply (finished_after_insert ts i j AtInventory); [exact Hi|discriminate|exact Hj].
  - (* line 230: the assignment of the flag *)
    specialize (HC (Finished true) Hi). simpl in HC.
    split; [lia|]. split; [auto|].
    intros _. exists i.
    apply list_lookup_insert_eq. eapply lookup_lt_Some; eauto.
  - rewrite list_insert_id by exact Hi. auto.
  - rewrite list_insert_id by exact Hi. auto.
Qed.

Lemma trigger_invariant_run k sched ts :
  trigger_invariant k ts -> trigger_invariant k (run_schedule sched ts).
Proof.
  intros H. induction sched as [|i sched IH] using rev_ind; [exact H|].
  rewrite run_schedule_snoc. apply trigger_invariant_step. exact IH.
Qed.

Lemma listed_count_replicate n : listed_count (replicate n AtTest) = O.
Proof. unfold listed_count. induction n as [|n IH]; [reflexivity|exact IH]. Qed.

Lemma trigger_invariant_start n st :
  _inventory_done st = false ->
  trigger_invariant (list_calls st) (replicate n AtTest, st).
Proof.
  intros Hd. unfold trigger_invariant. simpl.
  rewrite listed_count_replicate. split; [lia|]. split.
  - intros i b H. apply lookup_replicate in H as [H _]. discriminate.
  - rewrite Hd. discriminate.
Qed.

(** A caller that has not crashed moves forward each time it runs, until
    it has finished. *)
Lemma thread_step_rank p st :
  (forall e, p <> Crashed e) ->
  (forall e, fst (thread_step p st) <> Crashed e) /\
  (3 <= step_rank (fst (thread_step p st)) \/
   S (step_rank p) <= step_rank (fst (thread_step p st)))%nat.
Proof.
  intros Hp. destruct p as [| | |b|e]; simpl.
  - destruct (_inventory_done st); simpl; split; [discriminate|lia|discriminate|lia].
  - destruct (bulk_inventory_gcs_returns (world (list_calls st)) st) as (cache & Hc).
    destruct (bulk_inventory_gcs (world (list_calls st)) st) as [o st1].
    simpl in Hc. subst o. simpl. split; [discriminate|lia].
  - split; [discriminate|lia].
  - split; [discriminate|lia].
  - exfalso. exact (Hp e eq_refl).
Qed.

Lemma run_schedule_rank sched i ts p :
  fst ts !! i = Some p -> (forall e, p <> Crashed e) ->
  exists p',
    fst (run_schedule sched ts) !! i = Some p' /\
    (forall e, p' <> Crashed e) /\
    (3 <= step_rank p' \/
     step_rank p + count_occ Nat.eq_dec sched i <= step_rank p')%nat.
Proof.
  intros Hi Hp. induction sched as [|j sched IH] using rev_ind.
  - exists p. simpl. split; [exact Hi|]. split; [exact Hp|]. lia.
  - destruct IH as (q & Hq & Hqc & Hr).
    rewrite run_schedule_snoc, count_occ_app. simpl.
    set (ts1 := run_schedule sched ts) in *.
    unfold schedule_step.
    destruct (Nat.eq_dec j i) as [->|Hne].
    + rewrite Hq.
      destruct (thread_step_rank q (snd ts1) Hqc) as (Hc' & Hr').
      destruct (thread_step q (snd ts1)) as [q' st'] eqn:E. simpl in *.
      exists q'. split.
      * apply list_lookup_insert_eq. eapply lookup_lt_Some; eauto.
      * split; [exact Hc'|]. lia.
    + destruct (fst ts1 !! j) as [pj|] eqn:Hj.
      * destruct (thread_step pj (snd ts1)) as [pj' st']. simpl.
        exists q. rewrite list_lookup_insert_ne by exact Hne.
        split; [exact Hq|]. split; [exact Hqc|]. lia.
      * exists q. split; [exact Hq|]. split; [exact Hqc|]. lia.
Qed.

(** C10 (as amended): the module has no lock around the test and the
    assignment of [_inventory_done].  When n callers enter
    [early_inventory_job_selector] at once from a state in which no
    inventory has run, then under every interleaving of their statements:
    a caller that has left the block sees [_inventory_done] set; the
    number of listing requests sent is the number of callers that read the
    flag as unset, at most n, and at least one once all callers have
    finished; and a caller that has run three times has finished. *)
Theorem concurrent_triggers_between_one_and_n (n : nat) (sched : list nat) (st : state) :
  _inventory_done st = false ->
  let ts' := fst (run_schedule sched (replicate n AtTest, st)) in
  let st' := snd (run_schedule sched (replicate n AtTest, st)) in
  (forall i b, ts' !! i = Some (Finished b) -> _inventory_done st' = true) /\
  list_calls st' = (list_calls st + listed_count ts')%nat /\
  (list_calls st' <= list_calls st + n)%nat /\
  (all_finished ts' = true -> (1 <= n)%nat ->
   (list_calls st + 1 <= list_calls st')%nat) /\
  (forall i, (i < n)%nat -> (3 <= count_occ Nat.eq_dec sched i)%nat ->
   exists b, ts' !! i = Some (Finished b)).
Proof.
  intros Hd. simpl.
  pose proof (trigger_invariant_run _ sched _ (trigger_invariant_start n st Hd))
    as (HL & HF & HD).
  pose proof (run_schedule_length sched (replicate n AtTest, st)) as Hlen.
  simpl in Hlen. rewrite length_replicate in Hlen.
  set (ts' := fst (run_schedule sched (replicate n AtTest, st))) in *.
  set (st' := snd (run_schedule sched (replicate n AtTest, st))) in *.
  split; [exact HF|]. split; [exact HL|]. split.
  { pose proof (listed_count_le ts'). lia. }
  split.
  - intros Hall Hn.
    destruct (lookup_lt_is_Some_2 ts' O) as (p & Hp); [lia|].
    assert (Hfin : is_finished p = true).
    { unfold all_finished in Hall. rewrite forallb_forall in Hall.
      apply Hall. apply list_elem_of_In. eapply list_elem_of_lookup_2. exact Hp. }
    destruct p as [| | |b|e]; try discriminate.
    destruct (HD (HF _ _ Hp)) as (j & Hj).
    pose proof (listed_count_pos ts' j _ Hj eq_refl). lia.
  - intros i Hi Hocc.
    destruct (run_schedule_rank sched i (replicate n AtTest, st) AtTest)
      as (p' & Hp' & Hc & Hr).
    { simpl. apply lookup_replicate. auto. }
    { discriminate. }
    fold ts' in Hp'. simpl in Hr.
    destruct p' as [| | |b|e]; simpl in Hr; try lia.
    eauto.
Qed.

(** *** Both call sites, by what the store answers *)

Lemma bulk_inventory_gcs_spec r st :
  fst (bulk_inventory_gcs r st) = Returns (inventory_result r) /\
  _cache_stats (snd (bulk_inventory_gcs r st)) = inventory_stats r (_cache_stats st).
Proof.
  unfold bulk_inventory_gcs, inventory_try, inventory_result, inventory_stats.
  destruct (run_listing r) as [blobs [e|]]; simpl; [auto|].
  rewrite inventory_loop_count. auto.
Qed.

Lemma early_inventory_job_selector_effect st :
  fst (early_inventory_job_selector st) = Returns tt /\
  if _inventory_done st then same_globals st (snd (early_inventory_job_selector st))
  else
    _bulk_cache (snd (early_inventory_job_selector st)) =
      inventory_result (world (list_calls st)) /\
    _cache_stats (snd (early_inventory_job_selector st)) =
      inventory_stats (world (list_calls st)) (_cache_stats st) /\
    _inventory_done (snd (early_inventory_job_selector st)) = true /\
    list_calls (snd (early_inventory_job_selector st)) = S (list_calls st) /\
    remote_calls (snd (early_inventory_job_selector st)) = remote_calls st.
Proof.
  unfold early_inventory_job_selector, same_globals. simpl.
  destruct (_inventory_done st) eqn:Hd; simpl; [auto 10|].
  unfold bulk_inventory_gcs, inventory_try, inventory_result, inventory_stats. simpl.
  destruct (run_listing (world (list_calls st))) as [blobs [e|]]; simpl; [auto 10|].
  rewrite inventory_loop_count. auto 10.
Qed.

Lemma patched_async_run_effect c st :
  fst (patched_async_run c st) = Returns tt /\
  if contains "update_input_sizes" (coro_str c) && negb (_inventory_done st) then
    _bulk_cache (snd (patched_async_run c st)) =
      inventory_result (world (list_calls st)) /\
    _cache_stats (snd (patched_async_run c st)) =
      inventory_stats (world (list_calls st)) (_cache_stats st) /\
    _inventory_done (snd (patched_async_run c st)) = true /\
    list_calls (snd (patched_async_run c st)) = S (list_calls st) /\
    remote_calls (snd (patched_async_run c st)) = remote_calls st
  else same_globals st (snd (patched_async_run c st)).
Proof.
  unfold patched_async_run, same_globals. simpl.
  destruct (contains "update_input_sizes" (coro_str c)); simpl; [|auto 10].
  destruct (_inventory_done st) eqn:Hd; simpl; [auto 10|].
  unfold bulk_inventory_gcs, inventory_try, inventory_result, inventory_stats. simpl.
  destruct (run_listing (world (list_calls st))) as [blobs [e|]]; simpl; [auto 10|].
  rewrite inventory_loop_count. auto 10.
Qed.

(** *** Substring test *)

Lemma prefix_spec (a b : string) :
  String.prefix a b = true <-> exists post, b = a +:+ post.
Proof.
  revert b. induction a as [|x a IH]; intros b.
  - split; [intros _; exists b; reflexivity|intros _; destruct b; reflexivity].
  - destruct b as [|y b]; simpl.
    + split; [discriminate|]. intros (post & H). discriminate.
    + destruct (Ascii.ascii_dec x y) as [->|Hne].
      * rewrite IH. split; intros (post & H); exists post.
        -- rewrite H. reflexivity.
        -- injection H as H. exact H.
      * split; [discriminate|]. intros (post & H). injection H as H _.
        congruence.
Qed.

Lemma contains_spec (needle haystack : string) :
  contains needle haystack = true <->
  exists pre post, haystack = pre +:+ needle +:+ post.
Proof.
  assert (E : forall h, contains needle h =
                String.prefix needle h ||
                match h with EmptyString => false | String _ r => contains needle r end)
    by (intros [|? ?]; reflexivity).
  induction haystack as [|y hay IH]; rewrite E.
  - rewrite orb_false_r, prefix_spec. split.
    + intros (post & H). exists "", post. exact H.
    + intros (pre & post & H). destruct pre as [|x pre]; [|discriminate].
      exists post. exact H.
  - rewrite orb_true_iff, prefix_spec, IH. split.
    + intros [(post & H)|(pre & post & H)].
      * exists "", post. exact H.
      * exists (String y pre), post. simpl. rewrite H. reflexivity.
    + intros (pre & post & H). destruct pre as [|x pre]; simpl in H.
      * left. exists post. exact H.
      * right. injection H as _ H. exists pre, post. exact H.
Qed.

(** *** Calls of the patched host, one at a time *)

Lemma host_call_patched_state c st :
  snd (host_call patched c st) =
  match c with
  | CallExists p => snd (patched_iofile_exists p st)
  | CallSize p => snd (patched_iofile_size p st)
  | CallAsyncRun c => snd (patched_async_run c st)
  | CallJobSelector => snd (early_inventory_job_selector st)
  end.
Proof.
  destruct c as [p|p|c|]; simpl.
  - destruct (patched_iofile_exists p st); reflexivity.
  - destruct (patched_iofile_size p st); reflexivity.
  - destruct (patched_async_run c st); reflexivity.
  - destruct (early_inventory_job_selector st); reflexivity.
Qed.

Lemma host_call_counters c st :
  let s := _cache_stats st in
  let s' := _cache_stats (snd (host_call patched c st)) in
  cache_hits s' + cache_misses s' =
    cache_hits s + cache_misses s + (if is_exists_call c then 1 else 0) /\
  cache_hits s <= cache_hits s' /\ cache_misses s <= cache_misses s'.
Proof.
  simpl. rewrite host_call_patched_state. destruct c as [p|p|c|]; simpl.
  - destruct (patched_iofile_exists_counters p st) as (H & M). simpl in H, M.
    rewrite H, M. destruct (is_hit (_bulk_cache st) p); lia.
  - rewrite patched_iofile_size_stats. lia.
  - destruct (patched_async_run_effect c st) as (_ & E).
    destruct (contains _ _ && negb _).
    + destruct E as (_ & -> & _). unfold inventory_stats.
      destruct (run_listing _) as [blobs [e|]]; simpl; lia.
    + destruct E as (_ & <- & _). lia.
  - destruct (early_inventory_job_selector_effect st) as (_ & E).
    destruct (_inventory_done st).
    + destruct E as (_ & <- & _). lia.
    + destruct E as (_ & -> & _). unfold inventory_stats.
      destruct (run_listing _) as [blobs [e|]]; simpl; lia.
Qed.

Lemma host_calls_counters cs st :
  let s := _cache_stats st in
  let s' := _cache_stats (snd (host_calls patched cs st)) in
  cache_hits s' + cache_misses s' =
    cache_hits s + cache_misses s + Z.of_nat (length (List.filter is_exists_call cs)) /\
  cache_hits s <= cache_hits s' /\ cache_misses s <= cache_misses s'.
Proof.
  revert st. induction cs as [|c cs IH]; intros st; simpl.
  - lia.
  - pose proof (host_calls_cons patched c cs st) as E. simpl in E. rewrite E. simpl.
    destruct (host_call_counters c st) as (C1 & C2 & C3).
    destruct (IH (snd (host_call patched c st))) as (I1 & I2 & I3).
    simpl in C1, C2, C3, I1, I2, I3.
    destruct (is_exists_call c); simpl length; lia.
Qed.

(** *** What [print_statistics] shows *)

Lemma print_statistics_hit_rate (s : cache_stats) :
  (exists h t, StatHitRate h t ∈ print_statistics s) <->
  inventory_calls s <> 0 /\ 0 < cache_hits s + cache_misses s.
Proof.
  unfold print_statistics.
  destruct (inventory_calls s =? 0) eqn:Ei.
  - apply Z.eqb_eq in Ei. split.
    + intros (h & t & H). apply elem_of_nil in H. contradiction.
    + intros (N & _). contradiction.
  - apply Z.eqb_neq in Ei.
    destruct (0 <? cache_hits s + cache_misses s) eqn:Et.
    + apply Z.ltb_lt in Et. split; [auto|]. intros _.
      exists (cache_hits s), (cache_hits s + cache_misses s).
      rewrite !elem_of_app. right. left. apply list_elem_of_here.
    + apply Z.ltb_ge in Et. split; [|lia].
      intros (h & t & H). exfalso.
      rewrite !elem_of_app, !elem_of_cons, !elem_of_nil in H.
      intuition discriminate.
Qed.

Lemma filter_nonempty_iff {A} (f : A -> bool) (l : list A) :
  0 < Z.of_nat (length (List.filter f l)) <-> exists x, x ∈ l /\ f x = true.
Proof.
  induction l as [|a l IH]; simpl.
  - split; [lia|]. intros (x & H & _). apply elem_of_nil in H. contradiction.
  - destruct (f a) eqn:Ea; simpl.
    + split; [|lia]. intros _. exists a. split; [apply list_elem_of_here|exact Ea].
    + rewrite IH. split.
      * intros (x & H & Hx). exists x. split; [apply list_elem_of_further, H|exact Hx].
      * intros (x & H & Hx). apply elem_of_cons in H as [->|H]; [congruence|eauto].
Qed.

(** *** A store that refuses the first listing request *)

Lemma host_call_refused (c : call) (st : state) (blobs : list blob) (e : string) :
  run_listing (world O) = Listing blobs (Some e) ->
  _bulk_cache st = ∅ ->
  inventory_calls (_cache_stats st) = 0 ->
  (_inventory_done st = false -> list_calls st = O) ->
  let st' := snd (host_call patched c st) in
  _bulk_cache st' = ∅ /\
  inventory_calls (_cache_stats st') = 0 /\
  (_inventory_done st' = false -> list_calls st' = O) /\
  cache_hits (_cache_stats st') = cache_hits (_cache_stats st).
Proof.
  intros Hw Hc Hi Hl. simpl. rewrite host_call_patched_state.
  assert (R : _inventory_done st = false ->
              inventory_result (world (list_calls st)) = ∅ /\
              inventory_stats (world (list_calls st)) (_cache_stats st) = _cache_stats st).
  { intros Hd. rewrite (Hl Hd). unfold inventory_result, inventory_stats.
    rewrite Hw. auto. }
  assert (Same : forall st', same_globals st st' ->
            _bulk_cache st' = ∅ /\
            inventory_calls (_cache_stats st') = 0 /\
            (_inventory_done st' = false -> list_calls st' = O) /\
            cache_hits (_cache_stats st') = cache_hits (_cache_stats st)).
  { intros st' (E1 & E2 & E3 & E4 & _). rewrite <- E1, <- E2, <- E3, <- E4. auto. }
  assert (Run : forall st', _inventory_done st = false ->
            _bulk_cache st' = inventory_result (world (list_calls st)) ->
            _cache_stats st' = inventory_stats (world (list_calls st)) (_cache_stats st) ->
            _inventory_done st' = true ->
            _bulk_cache st' = ∅ /\
            inventory_calls (_cache_stats st') = 0 /\
            (_inventory_done st' = false -> list_calls st' = O) /\
            cache_hits (_cache_stats st') = cache_hits (_cache_stats st)).
  { intros st' Hd E1 E2 E3. destruct (R Hd) as (R1 & R2).
    rewrite E1, E2, E3, R1, R2. repeat split; [exact Hi|discriminate]. }
  destruct c as [p|p|c|].
  - unfold patched_iofile_exists. rewrite Hc, lookup_empty. simpl. auto.
  - unfold patched_iofile_size. rewrite Hc, lookup_empty. simpl. auto.
  - destruct (patched_async_run_effect c st) as (_ & E).
    destruct (contains _ _); simpl in E; [|exact (Same _ E)].
    destruct (_inventory_done st) eqn:Hd; simpl in E; [exact (Same _ E)|].
    destruct E as (E1 & E2 & E3 & _). apply Run; auto.
  - destruct (early_inventory_job_selector_effect st) as (_ & E).
    destruct (_inventory_done st) eqn:Hd; [exact (Same _ E)|].
    destruct E as (E1 & E2 & E3 & _). apply Run; auto.
Qed.

(** X1: when the store refuses the listing, [inventory_calls] stays 0,
    so [print_statistics] returns at its first line and prints nothing at
    exit, however many lookups were made: every [exists] query is a miss,
    the miss counter counts them all, and none of it is reported. *)
Theorem refused_listing_prints_no_statistics
    (cs : list call) (st : state) (blobs : list blob) (e : string) :
  run_listing (world O) = Listing blobs (Some e) ->
  _bulk_cache st = ∅ -> inventory_calls (_cache_stats st) = 0 ->
  _inventory_done st = false -> list_calls st = O ->
  print_statistics (_cache_stats (snd (host_calls patched cs st))) = [] /\
  cache_misses (_cache_stats (snd (host_calls patched cs st))) =
    cache_misses (_cache_stats st) + Z.of_nat (length (List.filter is_exists_call cs)).
Proof.
  intros Hw Hc Hi Hd Hl.
  assert (K : inventory_calls (_cache_stats (snd (host_calls patched cs st))) = 0 /\
              cache_hits (_cache_stats (snd (host_calls patched cs st))) =
                cache_hits (_cache_stats st)).
  { assert (Hl' : _inventory_done st = false -> list_calls st = O) by auto.
    clear Hd Hl. revert st Hc Hi Hl'.
    induction cs as [|c cs IH]; intros st Hc Hi Hl; [auto|].
    rewrite host_calls_cons. simpl snd.
    destruct (host_call_refused c st blobs e Hw Hc Hi Hl) as (C & I & L & H).
    destruct (IH _ C I L) as (I' & H'). rewrite I', H', H. auto. }
  destruct K as (K1 & K2). split.
  - unfold print_statistics. rewrite K1. reflexivity.
  - destruct (host_calls_counters cs st) as (S & _). simpl in S. lia.
Qed.

(** X2: the hit and miss counters together count the [exists] queries
    and nothing else, across any mix of lookups and inventory triggers:
    [size] lookups and the inventory itself never move them. *)
Theorem total_checks_count_exists_queries (cs : list call) (st : state) :
  let s := _cache_stats st in
  let s' := _cache_stats (snd (host_calls patched cs st)) in
  cache_hits s' + cache_misses s' =
    cache_hits s + cache_misses s + Z.of_nat (length (List.filter is_exists_call cs)) /\
  cache_hits s <= cache_hits s' /\ cache_misses s <= cache_misses s'.
Proof. exact (host_calls_counters cs st). Qed.

(** X3: with both counters at 0 when the calls start, [print_statistics]
    shows a hit-rate line exactly when an inventory has ended normally and
    at least one of the calls was an [exists] query; a run that only asks
    for sizes shows none, even if the dictionary answered every query. *)
Theorem hit_rate_line_needs_exists_query (cs : list call) (st : state) :
  cache_hits (_cache_stats st) = 0 -> cache_misses (_cache_stats st) = 0 ->
  ((exists h t,
      StatHitRate h t ∈ print_statistics (_cache_stats (snd (host_calls patched cs st)))) <->
   inventory_calls (_cache_stats (snd (host_calls patched cs st))) <> 0 /\
   exists c, c ∈ cs /\ is_exists_call c = true).
Proof.
  intros Hh Hm. rewrite print_statistics_hit_rate.
  destruct (host_calls_counters cs st) as (S & _). simpl in S.
  rewrite S, Hh, Hm, <- filter_nonempty_iff. simpl. reflexivity.
Qed.


(** X5: the two call sites are interchangeable: for a coroutine whose
    text mentions [update_input_sizes], [patched_async_run] leaves the
    dictionary, the statistics, the flag and the requests sent exactly as
    [early_inventory_job_selector] would have, from any state. *)
Theorem call_sites_interchangeable (c : coroutine) (st : state) :
  (exists pre post, coro_str c = pre +:+ "update_input_sizes" +:+ post) ->
  same_globals (snd (patched_async_run c st)) (snd (early_inventory_job_selector st)).
Proof.
  rewrite <- contains_spec. intros Hc.
  destruct (patched_async_run_effect c st) as (_ & A).
  destruct (early_inventory_job_selector_effect st) as (_ & J).
  rewrite Hc in A. unfold same_globals in *.
  destruct (_inventory_done st); simpl in A.
  - destruct A as (A1 & A2 & A3 & A4 & A5), J as (J1 & J2 & J3 & J4 & J5).
    rewrite <- A1, <- A2, <- A3, <- A4, <- A5. auto.
  - destruct A as (A1 & A2 & A3 & A4 & A5), J as (J1 & J2 & J3 & J4 & J5).
    rewrite A1, A2, A3, A4, A5. auto.
Qed.

(** *** The size of the dictionary *)

Lemma last_named_None n blobs :
  n ∉ map blob_name blobs -> last_named n blobs = None.
Proof.
  induction blobs as [|b blobs IH] using rev_ind; [reflexivity|].
  rewrite map_app, elem_of_app, last_named_snoc. intros H.
  case_bool_decide as Hn.
  - exfalso. apply H. right. simpl. rewrite Hn. apply list_elem_of_here.
  - apply IH. intros Hin. apply H. left. exact Hin.
Qed.

Lemma last_named_Some n blobs b :
  last_named n blobs = Some b -> b ∈ blobs /\ blob_name b = n.
Proof.
  unfold last_named. intros F. apply find_some in F as [Hin Hdec]. split.
  - apply list_elem_of_In. apply in_rev. exact Hin.
  - apply bool_decide_eq_true in Hdec. exact Hdec.
Qed.

Lemma store_blob_size_le b (cache : gmap string file_info) :
  (size (store_blob b cache) <= 3 + size cache)%nat.
Proof.
  unfold store_blob. rewrite !map_size_insert.
  repeat match goal with |- context [match ?o with Some _ => id | None => S end] =>
    destruct o; simpl end; lia.
Qed.

Lemma store_blob_size_fresh b (cache : gmap string file_info) :
  cache !! gcs_uri (blob_name b) = None ->
  cache !! snakemake_path (blob_name b) = None ->
  cache !! local_path (blob_name b) = None ->
  size (store_blob b cache) = (3 + size cache)%nat.
Proof.
  intros H1 H2 H3. unfold store_blob.
  rewrite map_size_insert_None.
  2:{ rewrite lookup_insert_ne by apply snakemake_path_local_path.
      rewrite lookup_insert_ne by apply gcs_uri_local_path. exact H3. }
  rewrite map_size_insert_None.
  2:{ rewrite lookup_insert_ne by apply gcs_uri_snakemake_path. exact H2. }
  rewrite map_size_insert_None by exact H1. reflexivity.
Qed.

(** X6: an inventory that ends normally sets [files_cached] to the
    number of blobs yielded and returns a dictionary of at most three
    entries per blob, exactly three per blob when no two blobs share a
    name: the entry count the call sites print is three times the file
    count the statistics show. *)
Theorem three_entries_per_listed_name
    (r : run) (st : state) (blobs : list blob) (cache : gmap string file_info) :
  run_listing r = Listing blobs None ->
  fst (bulk_inventory_gcs r st) = Returns cache ->
  files_cached (_cache_stats (snd (bulk_inventory_gcs r st))) = Z.of_nat (length blobs) /\
  (size cache <= 3 * length blobs)%nat /\
  (NoDup (map blob_name blobs) -> size cache = (3 * length blobs)%nat).
Proof.
  intros Hl Hc.
  destruct (bulk_inventory_gcs_success r st blobs Hl) as (Hc' & Hs).
  rewrite Hc' in Hc. injection Hc as <-. rewrite Hs. simpl.
  split; [reflexivity|]. clear. split.
  - induction blobs as [|b blobs IH] using rev_ind; [simpl; rewrite map_size_empty; lia|].
    rewrite inventory_loop_snoc, length_app. simpl.
    pose proof (store_blob_size_le b (lv_cache (inventory_loop blobs))). lia.
  - induction blobs as [|b blobs IH] using rev_ind;
      [intros _; simpl; rewrite map_size_empty; lia|].
    rewrite map_app. intros ND. apply NoDup_app in ND as (ND & Hfresh & _).
    assert (Hb : blob_name b ∉ map blob_name blobs).
    { intros Hin. apply (Hfresh _ Hin). simpl. apply list_elem_of_here. }
    rewrite inventory_loop_snoc, length_app. simpl.
    rewrite store_blob_size_fresh.
    + rewrite (IH ND). lia.
    + rewrite inventory_lookup_gcs_uri, (last_named_None _ _ Hb). reflexivity.
    + rewrite inventory_lookup_snakemake_path, (last_named_None _ _ Hb). reflexivity.
    + rewrite inventory_lookup_local_path, (last_named_None _ _ Hb). reflexivity.
Qed.

(** *** The progress lines *)

Lemma inventory_loop_out blobs :
  lv_out (inventory_loop blobs) = progress_lines (length blobs).
Proof.
  induction blobs as [|b blobs IH] using rev_ind; [reflexivity|].
  rewrite inventory_loop_snoc, length_app. simpl.
  rewrite inventory_loop_count, IH. unfold progress_lines.
  set (n := length blobs).
  replace (n + 1)%nat with (S n) by lia.
  destruct (Z.eqb_spec ((Z.of_nat n + 1) mod 10000) 0) as [Hz|Hnz].
  - assert (Hq : Z.of_nat (S n) / 10000 = Z.of_nat n / 10000 + 1).
    { rewrite Nat2Z.inj_succ. unfold Z.succ.
      pose proof (Z.div_mod (Z.of_nat n + 1) 10000 ltac:(lia)) as D1.
      pose proof (Z.div_mod (Z.of_nat n) 10000 ltac:(lia)) as D2.
      pose proof (Z.mod_pos_bound (Z.of_nat n) 10000 ltac:(lia)) as B2.
      nia. }
    rewrite Hq.
    assert (Hpos : 0 <= Z.of_nat n / 10000) by (apply Z.div_pos; lia).
    rewrite Z2Nat.inj_add by lia. simpl (Z.to_nat 1).
    rewrite Nat.add_1_r, seq_S, map_app. simpl. f_equal. f_equal. f_equal.
    rewrite Nat2Z.inj_succ, Z2Nat.id by lia.
    pose proof (Z.div_mod (Z.of_nat n + 1) 10000 ltac:(lia)) as D1.
    rewrite Nat2Z.inj_succ in Hq. unfold Z.succ in *. lia.
  - assert (Hq : Z.of_nat (S n) / 10000 = Z.of_nat n / 10000).
    { rewrite Nat2Z.inj_succ. unfold Z.succ.
      pose proof (Z.div_mod (Z.of_nat n + 1) 10000 ltac:(lia)) as D1.
      pose proof (Z.div_mod (Z.of_nat n) 10000 ltac:(lia)) as D2.
      pose proof (Z.mod_pos_bound (Z.of_nat n) 10000 ltac:(lia)) as B2.
      pose proof (Z.mod_pos_bound (Z.of_nat n + 1) 10000 ltac:(lia)) as B1.
      nia. }
    rewrite Hq. reflexivity.
Qed.

(** X7: everything one call of [bulk_inventory_gcs] prints: the rule and
    the starting line, one progress line at every ten thousandth blob
    (none for fewer than ten thousand), and then either the summary with
    the number of blobs and the time, or the error text and the
    traceback.  The progress lines of the blobs yielded before a failure
    are printed as well. *)
Theorem bulk_inventory_gcs_output (r : run) (st : state) :
  stderr (snd (bulk_inventory_gcs r st)) =
    stderr st ++ [LogRule; LogStarting GCS_BUCKET GCS_PREFIX] ++
    match run_listing r with
    | Listing blobs None =>
      progress_lines (length blobs) ++
      [LogCached (Z.of_nat (length blobs)) (run_elapsed r); LogRule]
    | Listing blobs (Some e) =>
      progress_lines (length blobs) ++ [LogError e; LogTraceback e; LogRule]
    end /\
  forall blobs failure,
    run_listing r = Listing blobs failure -> Z.of_nat (length blobs) < 10000 ->
    progress_lines (length blobs) = [].
Proof.
  split.
  - unfold bulk_inventory_gcs, inventory_try.
    destruct (run_listing r) as [blobs [e|]]; simpl;
      rewrite inventory_loop_out, ?inventory_loop_count, <- !app_assoc; reflexivity.
  - intros blobs failure _ Hlt. unfold progress_lines.
    rewrite Z.div_small by lia. reflexivity.
Qed.

(** *** What the dictionary holds *)

Lemma remote_calls_grow (l : list remote_call) (x : remote_call) : l ++ [x] <> l.
Proof.
  intros H. apply (f_equal length) in H. rewrite length_app in H. simpl in H. lia.
Qed.

Lemma inventory_entry_latest blobs k info :
  lv_cache (inventory_loop blobs) !! k = Some info ->
  exists b, b ∈ blobs /\ k ∈ key_forms (blob_name b) /\
            last_named (blob_name b) blobs = Some b /\ info = file_info_of b.
Proof.
  intros H. destruct (inventory_entries _ _ _ H) as (b0 & _ & _ & Hk).
  assert (Hk' : k ∈ key_forms (blob_name b0)).
  { unfold key_forms. rewrite !elem_of_cons. tauto. }
  pose proof (inventory_key_forms blobs _ k Hk') as L. rewrite H in L.
  destruct (last_named (blob_name b0) blobs) as [b|] eqn:E; [|discriminate].
  injection L as ->. destruct (last_named_Some _ _ _ E) as (Hb & Hn).
  exists b. rewrite Hn. auto.
Qed.

(** X8: after an inventory that ended normally the dictionary holds the
    keys of the yielded blobs and no others: a path is answered from it
    exactly when it is one of the three keys of a yielded blob's name, and
    a [size] query that sends no request to the store returns the size of
    the latest yielded blob of that name. *)
Theorem dictionary_holds_exactly_the_listed_keys
    (r : run) (st0 : state) (blobs : list blob) (cache : gmap string file_info) :
  run_listing r = Listing blobs None ->
  fst (bulk_inventory_gcs r st0) = Returns cache ->
  (forall k, is_hit cache k = true <->
             exists b, b ∈ blobs /\ k ∈ key_forms (blob_name b)) /\
  (forall k st,
     _bulk_cache st = cache ->
     remote_calls (snd (patched_iofile_size k st)) = remote_calls st ->
     exists b, b ∈ blobs /\ k ∈ key_forms (blob_name b) /\
               last_named (blob_name b) blobs = Some b /\
               fst (patched_iofile_size k st) = Returns (blob_size b)).
Proof.
  intros Hl Hc.
  destruct (bulk_inventory_gcs_success r st0 blobs Hl) as (Hc' & _).
  rewrite Hc' in Hc. injection Hc as <-. split.
  - intros k. unfold is_hit. rewrite bool_decide_eq_true. split.
    + intros (info & H). destruct (inventory_entry_latest _ _ _ H) as (b & Hb & Hk & _).
      eauto.
    + intros (b & Hb & Hk). rewrite (inventory_key_forms blobs _ k Hk).
      destruct (last_named_listed _ blobs b Hb eq_refl) as (b' & -> & _).
      simpl. eauto.
  - intros k st Hst Hrem. unfold patched_iofile_size in *. rewrite Hst in *.
    destruct (lv_cache (inventory_loop blobs) !! k) as [info|] eqn:H; simpl in *.
    + destruct (inventory_entry_latest _ _ _ H) as (b & Hb & Hk & Hlast & ->).
      exists b. auto.
    + exfalso. exact (remote_calls_grow _ _ Hrem).
Qed.

(** *** The order of the listing *)

Lemma last_named_unique n blobs b :
  NoDup (map blob_name blobs) ->
  (last_named n blobs = Some b <-> b ∈ blobs /\ blob_name b = n).
Proof.
  intros ND. split; [apply last_named_Some|].
  intros (Hb & Hn). destruct (last_named_listed n blobs b Hb Hn) as (b' & E & Hb' & Hn').
  rewrite E. f_equal. apply (unique_name_same_blob blobs); congruence.
Qed.

Lemma inventory_lookup_permuted blobs blobs' k info :
  NoDup (map blob_name blobs) -> blobs ≡ₚ blobs' ->
  lv_cache (inventory_loop blobs) !! k = Some info ->
  lv_cache (inventory_loop blobs') !! k = Some info.
Proof.
  intros ND HP H.
  assert (ND' : NoDup (map blob_name blobs')).
  { change (NoDup (blob_name <$> blobs')). rewrite <- HP. exact ND. }
  destruct (inventory_entry_latest _ _ _ H) as (b & Hb & Hk & _ & ->).
  rewrite (inventory_key_forms blobs' _ k Hk).
  assert (E : last_named (blob_name b) blobs' = Some b).
  { apply last_named_unique; [exact ND'|]. rewrite <- HP. auto. }
  rewrite E. reflexivity.
Qed.

(** X9: when no two blobs share a name, the order in which the store
    yields them does not matter: two listings that are permutations of one
    another give the same dictionary and the same statistics. *)
Theorem listing_order_is_irrelevant
    (r r' : run) (st : state) (blobs blobs' : list blob) :
  run_listing r = Listing blobs None ->
  run_listing r' = Listing blobs' None ->
  run_elapsed r = run_elapsed r' ->
  NoDup (map blob_name blobs) -> blobs ≡ₚ blobs' ->
  fst (bulk_inventory_gcs r st) = fst (bulk_inventory_gcs r' st) /\
  _cache_stats (snd (bulk_inventory_gcs r st)) =
    _cache_stats (snd (bulk_inventory_gcs r' st)).
Proof.
  intros Hl Hl' He ND HP.
  destruct (bulk_inventory_gcs_success r st blobs Hl) as (-> & ->).
  destruct (bulk_inventory_gcs_success r' st blobs' Hl') as (-> & ->).
  rewrite He, (Permutation_length HP). split; [|reflexivity].
  f_equal. apply map_eq. intros k.
  assert (ND' : NoDup (map blob_name blobs')).
  { change (NoDup (blob_name <$> blobs')). rewrite <- HP. exact ND. }
  destruct (lv_cache (inventory_loop blobs) !! k) as [info|] eqn:E.
  - symmetry. apply (inventory_lookup_permuted blobs blobs'); assumption.
  - destruct (lv_cache (inventory_loop blobs') !! k) as [info'|] eqn:E'; [|reflexivity].
    apply (inventory_lookup_permuted blobs' blobs) in E';
      [congruence|exact ND'|symmetry; exact HP].
Qed.

(** *** Requests to the store *)

Lemma host_call_remote c st :
  exists rs,
    remote_calls (snd (host_call patched c st)) = remote_calls st ++ rs /\
    (rs = [] \/ rs = original_requests c).
Proof.
  rewrite host_call_patched_state. destruct c as [p|p|c|].
  - unfold patched_iofile_exists. destruct (_bulk_cache st !! p); simpl.
    + exists []. rewrite app_nil_r. auto.
    + exists [RemoteExists p]. auto.
  - unfold patched_iofile_size. destruct (_bulk_cache st !! p); simpl.
    + exists []. rewrite app_nil_r. auto.
    + exists [RemoteSize p]. auto.
  - exists []. rewrite app_nil_r. split; [|auto].
    destruct (patched_async_run_effect c st) as (_ & E).
    destruct (contains _ _ && negb _).
    + destruct E as (_ & _ & _ & _ & E). exact E.
    + destruct E as (_ & _ & _ & _ & E). symmetry. exact E.
  - exists []. rewrite app_nil_r. split; [|auto].
    destruct (early_inventory_job_selector_effect st) as (_ & E).
    destruct (_inventory_done st).
    + destruct E as (_ & _ & _ & _ & E). symmetry. exact E.
    + destruct E as (_ & _ & _ & _ & E). exact E.
Qed.

(** X10: the patch never adds a single-object request: over any
    sequence of calls, the requests the patched host sends to the store
    are, in order, some of those the unpatched host would have sent for
    the same calls. *)
Theorem patch_adds_no_remote_request (cs : list call) (st : state) :
  exists rs,
    remote_calls (snd (host_calls patched cs st)) = remote_calls st ++ rs /\
    rs `sublist_of` concat (map original_requests cs).
Proof.
  revert st. induction cs as [|c cs IH]; intros st.
  - exists []. simpl. rewrite app_nil_r. split; [reflexivity|constructor].
  - rewrite host_calls_cons. simpl snd.
    destruct (host_call_remote c st) as (r1 & E1 & Hr1).
    destruct (IH (snd (host_call patched c st))) as (r2 & E2 & Hr2).
    exists (r1 ++ r2). rewrite E2, E1, app_assoc. split; [reflexivity|].
    simpl. apply sublist_app; [|exact Hr2].
    destruct Hr1 as [->| ->]; [apply sublist_nil_l|reflexivity].
Qed.

(** *** Importing with the patch enabled *)

Lemma PATCH_DISABLED_iff :
  PATCH_DISABLED = true <-> environ !! "GCS_JOB_SCHEDULER_PATCH_DISABLE" = Some "1".
Proof.
  unfold PATCH_DISABLED. rewrite bool_decide_eq_true.
  destruct (environ !! "GCS_JOB_SCHEDULER_PATCH_DISABLE") as [v|]; simpl.
  - split; [intros ->; reflexivity|intros H; injection H as H; exact H].
  - split; discriminate.
Qed.

Lemma host_calls_queries_only cs st :
  forallb is_query cs = true -> _bulk_cache st = ∅ ->
  fst (host_calls patched cs st) = map original_reply cs /\
  _bulk_cache (snd (host_calls patched cs st)) = ∅ /\
  list_calls (snd (host_calls patched cs st)) = list_calls st /\
  _inventory_done (snd (host_calls patched cs st)) = _inventory_done st /\
  cache_hits (_cache_stats (snd (host_calls patched cs st))) =
    cache_hits (_cache_stats st).
Proof.
  revert st. induction cs as [|c cs IH]; intros st Hq He; [simpl; auto|].
  simpl in Hq. apply andb_true_iff in Hq as (Hc & Hq).
  rewrite host_calls_cons. simpl fst. simpl snd.
  assert (C : fst (host_call patched c st) = original_reply c /\
              _bulk_cache (snd (host_call patched c st)) = ∅ /\
              list_calls (snd (host_call patched c st)) = list_calls st /\
              _inventory_done (snd (host_call patched c st)) = _inventory_done st /\
              cache_hits (_cache_stats (snd (host_call patched c st))) =
                cache_hits (_cache_stats st)).
  { destruct c as [p|p|c|]; try discriminate; simpl.
    - unfold patched_iofile_exists. rewrite He, lookup_empty. simpl. auto.
    - unfold patched_iofile_size. rewrite He, lookup_empty. simpl. auto. }
  destruct C as (C1 & C2 & C3 & C4 & C5).
  destruct (IH _ Hq C2) as (I1 & I2 & I3 & I4 & I5).
  rewrite C1, I1, I2, I3, I4, I5, C3, C4, C5. auto.
Qed.

(** X11: the patch is switched off by the value 1 and by nothing else:
    with the variable unset or holding any other text, importing the
    module replaces all four host functions and registers
    [print_statistics], without sending a listing request.  The inventory
    is lazy and lookups never start it: as long as neither [async_run] nor
    [job_selector] has been called, every [exists] and [size] query is a
    miss answered by the original method, and only the [exists] ones are
    counted. *)
Theorem import_patches_and_lookups_do_not_list (cs : list call) :
  environ !! "GCS_JOB_SCHEDULER_PATCH_DISABLE" <> Some "1" ->
  forallb is_query cs = true ->
  let h := snd (fst (import_module unpatched)) in
  let st := snd (import_module unpatched) in
  fst (fst (import_module unpatched)) = Imported /\
  h = patched /\
  fst (host_calls h cs st) = map original_reply cs /\
  list_calls (snd (host_calls h cs st)) = O /\
  _inventory_done (snd (host_calls h cs st)) = false /\
  cache_hits (_cache_stats (snd (host_calls h cs st))) = 0 /\
  cache_misses (_cache_stats (snd (host_calls h cs st))) =
    Z.of_nat (length (List.filter is_exists_call cs)).
Proof.
  intros Hv Hq.
  assert (Hd : PATCH_DISABLED = false).
  { destruct PATCH_DISABLED eqn:E; [|reflexivity].
    apply PATCH_DISABLED_iff in E. contradiction. }
  unfold import_module. rewrite Hd. simpl.
  split; [reflexivity|]. split; [reflexivity|].
  fold patched.
  match goal with |- context [host_calls patched cs ?s] => set (st := s) end.
  assert (Hh0 : cache_hits (_cache_stats st) = 0) by reflexivity.
  assert (Hm0 : cache_misses (_cache_stats st) = 0) by reflexivity.
  destruct (host_calls_queries_only cs st Hq eq_refl) as (R & _ & L & D & H).
  destruct (host_calls_counters cs st) as (S & _). cbv zeta in S.
  rewrite R, L, D. repeat split; try reflexivity; lia.
Qed.

(** *** Calling through the saved originals *)

Lemma call_twice_patched_exists depth p st :
  _bulk_cache st !! p = None ->
  let sv := {| _original_iofile_exists := Some Patched;
               _original_iofile_size := Some Patched |} in
  fst (call_iofile_exists depth sv Patched p st) =
    Raises "RecursionError" /\
  remote_calls (snd (call_iofile_exists depth sv Patched p st)) = remote_calls st /\
  _bulk_cache (snd (call_iofile_exists depth sv Patched p st)) = _bulk_cache st /\
  cache_misses (_cache_stats (snd (call_iofile_exists depth sv Patched p st))) =
    cache_misses (_cache_stats st) + Z.of_nat (S depth).
Proof.
  simpl. revert st. induction depth as [|depth IH]; intros st Hm.
  - simpl. rewrite Hm. simpl. repeat split; lia.
  - cbn [call_iofile_exists]. rewrite Hm. cbn [_original_iofile_exists].
    set (st1 := set_cache_stats (add_miss (_cache_stats st)) st).
    destruct (IH st1 Hm) as (R & Q & C & M).
    rewrite R, Q, C, M. simpl. repeat split; lia.
Qed.

Lemma call_twice_patched_size depth p st :
  _bulk_cache st !! p = None ->
  let sv := {| _original_iofile_exists := Some Patched;
               _original_iofile_size := Some Patched |} in
  call_iofile_size depth sv Patched p st =
    (Raises "RecursionError", st).
Proof.
  simpl. intros Hm. induction depth as [|depth IH].
  - simpl. rewrite Hm. reflexivity.
  - cbn [call_iofile_size]. rewrite Hm. cbn [_original_iofile_size]. exact IH.
Qed.


(** X13: [apply_patch] is not idempotent.  Called a second time it saves
    the patched functions as the originals, and from then on every lookup
    that misses the dictionary calls itself until the interpreter raises
    [RecursionError]: the store is never asked, whatever depth the
    interpreter allows, and an [exists] miss adds one to the miss counter
    per nested call.  Lookups that hit are answered as before. *)
Theorem second_apply_patch_makes_misses_recurse (depth : nat) (p : string) (st : state) :
  let once := save_and_patch_iofile unpatched no_originals in
  let twice := save_and_patch_iofile (fst once) (snd once) in
  let exists_call := call_iofile_exists depth (snd twice) (IOFile_exists (fst twice)) p st in
  let size_call := call_iofile_size depth (snd twice) (IOFile_size (fst twice)) p st in
  (_bulk_cache st !! p = None ->
   fst exists_call = Raises "RecursionError" /\
   remote_calls (snd exists_call) = remote_calls st /\
   cache_misses (_cache_stats (snd exists_call)) =
     cache_misses (_cache_stats st) + Z.of_nat (S depth) /\
   size_call = (Raises "RecursionError", st)) /\
  (is_Some (_bulk_cache st !! p) ->
   exists_call = patched_iofile_exists p st /\
   size_call = patched_iofile_size p st).
Proof.
  cbv zeta. cbn [save_and_patch_iofile unpatched fst snd IOFile_exists IOFile_size].
  split.
  - intros Hm.
    destruct (call_twice_patched_exists depth p st Hm) as (R & Q & _ & M).
    rewrite (call_twice_patched_size depth p st Hm). auto.
  - intros (info & Hh). unfold patched_iofile_exists, patched_iofile_size.
    destruct depth; simpl; rewrite Hh; auto.
Qed.

(** *** Two particular schedules *)

Lemma run_schedule_app a b ts :
  run_schedule (a ++ b) ts = run_schedule b (run_schedule a ts).
Proof. unfold run_schedule. apply fold_left_app. Qed.

Lemma schedule_step_middle (L R : list pc) (p : pc) (st : state) (i : nat) :
  i = length L ->
  schedule_step i (L ++ p :: R, st) =
  (L ++ fst (thread_step p st) :: R, snd (thread_step p st)).
Proof.
  intros ->. unfold schedule_step. simpl.
  rewrite list_lookup_middle by reflexivity.
  destruct (thread_step p st) as [p' st']. simpl. f_equal.
  rewrite insert_app_r_alt by lia. rewrite Nat.sub_diag. reflexivity.
Qed.

Lemma schedule_step_head (R : list pc) (p : pc) (st : state) :
  schedule_step 0 (p :: R, st) =
  (fst (thread_step p st) :: R, snd (thread_step p st)).
Proof. exact (schedule_step_middle [] R p st 0 eq_refl). Qed.

(** One statement of each caller in turn, when all callers stand at the
    same position [P] and [Q] is kept by the statement at [P]. *)
Lemma run_schedule_pass (P P' : pc) (Q : state -> Prop) (n : nat) :
  (forall st, Q st -> fst (thread_step P st) = P' /\ Q (snd (thread_step P st))) ->
  forall m st, (m <= n)%nat -> Q st ->
    fst (run_schedule (seq 0 m) (replicate n P, st)) =
      replicate m P' ++ replicate (n - m) P /\
    Q (snd (run_schedule (seq 0 m) (replicate n P, st))).
Proof.
  intros Hstep m st. induction m as [|m IH]; intros Hm HQ.
  - simpl. rewrite Nat.sub_0_r. auto.
  - destruct IH as (T & Q1); [lia|exact HQ|].
    rewrite seq_S, run_schedule_snoc. simpl.
    destruct (run_schedule (seq 0 m) (replicate n P, st)) as [ts1 st1].
    simpl in T, Q1. subst ts1.
    replace (n - m)%nat with (S (n - S m)) by lia. simpl replicate.
    rewrite schedule_step_middle by (rewrite length_replicate; reflexivity).
    destruct (Hstep st1 Q1) as (E & Q2). rewrite E. simpl. split; [|exact Q2].
    rewrite cons_middle, app_assoc. f_equal.
    rewrite <- replicate_S_end. reflexivity.
Qed.

Lemma run_schedule_full_pass (P P' : pc) (Q : state -> Prop) (n : nat) (st : state) :
  (forall st, Q st -> fst (thread_step P st) = P' /\ Q (snd (thread_step P st))) ->
  Q st ->
  fst (run_schedule (seq 0 n) (replicate n P, st)) = replicate n P' /\
  Q (snd (run_schedule (seq 0 n) (replicate n P, st))).
Proof.
  intros Hstep HQ.
  destruct (run_schedule_pass P P' Q n Hstep n st (le_n n) HQ) as (T & Q').
  rewrite Nat.sub_diag, app_nil_r in T. auto.
Qed.

Lemma listed_count_all_listed n : listed_count (replicate n (Finished true)) = n.
Proof.
  unfold listed_count. induction n as [|n IH]; [reflexivity|].
  simpl. rewrite IH. reflexivity.
Qed.

(** X14: the upper bound of C10 is reached for every number of callers:
    when each of n callers tests the flag before any of them sets it, all
    n run the inventory, so n listing requests are sent. *)
Theorem callers_testing_first_all_list (n : nat) (st : state) :
  _inventory_done st = false ->
  fst (run_schedule (round_robin n) (replicate n AtTest, st)) =
    replicate n (Finished true) /\
  list_calls (snd (run_schedule (round_robin n) (replicate n AtTest, st))) =
    (list_calls st + n)%nat.
Proof.
  intros Hd.
  assert (T : fst (run_schedule (round_robin n) (replicate n AtTest, st)) =
              replicate n (Finished true)).
  { unfold round_robin. rewrite !run_schedule_app.
    destruct (run_schedule_full_pass AtTest AtInventory
                (fun s => _inventory_done s = false) n st) as (T1 & Q1); [|exact Hd|].
    { intros s Hs. simpl. rewrite Hs. simpl. auto. }
    destruct (run_schedule (seq 0 n) (replicate n AtTest, st)) as [ts1 st1].
    simpl in T1, Q1. subst ts1.
    destruct (run_schedule_full_pass AtInventory AtSetDone
                (fun s => _inventory_done s = false) n st1) as (T2 & Q2); [|exact Q1|].
    { intros s Hs. simpl.
      destruct (bulk_inventory_gcs_returns (world (list_calls s)) s) as (cache & Hc).
      pose proof (bulk_inventory_gcs_frame (world (list_calls s)) s) as (_ & F & _).
      destruct (bulk_inventory_gcs (world (list_calls s)) s) as [o s1].
      simpl in Hc, F. subst o. simpl. rewrite F. auto. }
    destruct (run_schedule (seq 0 n) (replicate n AtInventory, st1)) as [ts2 st2].
    simpl in T2, Q2. subst ts2.
    destruct (run_schedule_full_pass AtSetDone (Finished true)
                (fun _ => True) n st2) as (T3 & _); [|exact I|].
    { intros s _. simpl. auto. }
    exact T3. }
  split; [exact T|].
  pose proof (trigger_invariant_run _ (round_robin n) _ (trigger_invariant_start n st Hd))
    as (L & _).
  rewrite L, T, listed_count_all_listed. reflexivity.
Qed.

Lemma one_by_one_S n : one_by_one (S n) = one_by_one n ++ [n; n; n].
Proof. unfold one_by_one. rewrite seq_S, flat_map_app. simpl. reflexivity. Qed.

Lemma listed_count_one n :
  listed_count (Finished true :: replicate n (Finished false)) = 1%nat.
Proof.
  unfold listed_count. simpl. f_equal.
  induction n as [|n IH]; [reflexivity|exact IH].
Qed.

(** X15: in the same model, callers that run one after another send one
    listing request between them: the first caller runs the inventory and
    every later one finds the flag set. *)
Theorem callers_one_by_one_list_once (n : nat) (st : state) :
  _inventory_done st = false ->
  fst (run_schedule (one_by_one (S n)) (replicate (S n) AtTest, st)) =
    Finished true :: replicate n (Finished false) /\
  list_calls (snd (run_schedule (one_by_one (S n)) (replicate (S n) AtTest, st))) =
    (list_calls st + 1)%nat.
Proof.
  intros Hd.
  assert (T : forall m, (m <= n)%nat ->
    fst (run_schedule (one_by_one (S m)) (replicate (S n) AtTest, st)) =
      (Finished true :: replicate m (Finished false)) ++ replicate (n - m) AtTest /\
    _inventory_done (snd (run_schedule (one_by_one (S m)) (replicate (S n) AtTest, st)))
      = true).
  { induction m as [|m IH]; intros Hm.
    - rewrite Nat.sub_0_r. unfold one_by_one, run_schedule. simpl fold_left.
      simpl replicate. rewrite schedule_step_head. simpl thread_step.
      rewrite Hd. simpl negb. cbv iota. simpl fst. simpl snd.
      set (st0 := print [LogJobSelectorInventory]
                    (print [LogRule; LogJobSelectorEntered] st)).
      rewrite schedule_step_head. simpl thread_step.
      destruct (bulk_inventory_gcs_returns (world (list_calls st)) st0) as (cache & Hc).
      destruct (bulk_inventory_gcs (world (list_calls st)) st0) as [o st1].
      simpl in Hc. subst o. cbv beta iota. cbn [fst snd].
      rewrite schedule_step_head. simpl. auto.
    - destruct IH as (T & F); [lia|].
      rewrite one_by_one_S, run_schedule_app.
      destruct (run_schedule (one_by_one (S m)) (replicate (S n) AtTest, st)) as [ts1 st1].
      simpl in T, F. subst ts1.
      replace (n - m)%nat with (S (n - S m)) by lia. simpl replicate.
      unfold run_schedule. simpl fold_left.
      assert (Hlen : S m = length (Finished true :: replicate m (Finished false)))
        by (simpl; rewrite length_replicate; reflexivity).
      change (Finished true :: replicate m (Finished false) ++
              AtTest :: replicate (n - S m) AtTest)
        with ((Finished true :: replicate m (Finished false)) ++
              AtTest :: replicate (n - S m) AtTest).
      rewrite (schedule_step_middle _ _ AtTest st1 (S m) Hlen). simpl thread_step.
      rewrite F. cbn [negb]. cbv beta iota. cbn [fst snd].
      rewrite (schedule_step_middle _ _ (Finished false) _ (S m) Hlen). simpl thread_step.
      cbn [fst snd].
      rewrite (schedule_step_middle _ _ (Finished false) _ (S m) Hlen). simpl. split.
      + f_equal. rewrite cons_middle, app_assoc. f_equal.
        rewrite <- replicate_S_end. reflexivity.
      + exact F. }
  destruct (T n (le_n n)) as (T' & _).
  rewrite Nat.sub_diag, app_nil_r in T'. split; [exact T'|].
  pose proof (trigger_invariant_run _ (one_by_one (S n)) _
                (trigger_invariant_start (S n) st Hd)) as (L & _).
  rewrite L, T', listed_count_one. reflexivity.
Qed.

End Patch.

(** ** The statements at the sample inputs *)

(** C2: the [size] lookup does return the stored byte count on a hit and
    the original's result on a miss, but unlike the [exists] lookup it
    counts neither: after the inventory of the sample bucket, a [size]
    query for the absent [a/3.txt] leaves [cache_misses] at 0 and one for
    the listed [a/1.txt] leaves [cache_hits] at 0, where the same two
    [exists] queries count one miss and one hit. *)
Theorem size_lookup_counts_nothing :
  let st := snd (early_inventory_job_selector ∅ sample_world initial_state) in
  let absent := gcs_uri ∅ "a/3.txt" in
  let listed := gcs_uri ∅ "a/1.txt" in
  _bulk_cache st !! absent = None /\
  fst (patched_iofile_size absent_size absent st) = absent_size absent /\
  cache_misses (_cache_stats (snd (patched_iofile_size absent_size absent st))) = 0 /\
  cache_misses (_cache_stats (snd (patched_iofile_exists absent_exists absent st))) = 1 /\
  fst (patched_iofile_size absent_size listed st) = Returns 10 /\
  cache_hits (_cache_stats (snd (patched_iofile_size absent_size listed st))) = 0 /\
  cache_hits (_cache_stats (snd (patched_iofile_exists absent_exists listed st))) = 1.
Proof. vm_compute. repeat split; reflexivity. Qed.

Lemma listing_failure_degrades_to_fallback_witness :
  _inventory_done initial_state = false /\
  run_listing (refusing_world (list_calls initial_state)) =
    Listing [] (Some "403 Forbidden") /\
  fst (host_calls ∅ refusing_world absent_exists absent_size patched
         [CallExists "gs://scale1/a/1.txt"; CallSize "gs://scale1/a/1.txt"]
         (snd (early_inventory_job_selector ∅ refusing_world initial_state))) =
    [ReplyExists (absent_exists "gs://scale1/a/1.txt");
     ReplySize (absent_size "gs://scale1/a/1.txt")].
Proof.
  split; [reflexivity|]. split; [reflexivity|].
  exact (proj1 (proj2 (proj2 (proj2
    (listing_failure_degrades_to_fallback ∅ refusing_world absent_exists absent_size
       initial_state [] "403 Forbidden" eq_refl eq_refl)))
    [CallExists "gs://scale1/a/1.txt"; CallSize "gs://scale1/a/1.txt"])).
Defined.

Lemma exists_hit_miss_accounting_witness :
  let st := set_bulk_cache (lv_cache (inventory_loop ∅ sample_blobs)) initial_state in
  _bulk_cache st !! gcs_uri ∅ "a/1.txt" = Some (FileInfo true 10 None) /\
  _bulk_cache st !! "a/1.txt" = None /\
  cache_hits (_cache_stats (snd (patched_iofile_exists absent_exists
                                   (gcs_uri ∅ "a/1.txt") st))) =
    cache_hits (_cache_stats st) + 1 /\
  cache_misses (_cache_stats (snd (patched_iofile_exists absent_exists "a/1.txt" st))) =
    cache_misses (_cache_stats st) + 1.
Proof.
  intros st.
  assert (H1 : _bulk_cache st !! gcs_uri ∅ "a/1.txt" = Some (FileInfo true 10 None))
    by (vm_compute; reflexivity).
  assert (H2 : _bulk_cache st !! "a/1.txt" = None) by (vm_compute; reflexivity).
  split; [exact H1|]. split; [exact H2|].
  destruct (exists_hit_miss_accounting absent_exists [] st) as (Hit & Miss & _).
  split.
  - exact (proj1 (proj2 (Hit _ _ H1))).
  - exact (proj1 (proj2 (proj2 (Miss _ H2)))).
Defined.

Lemma inventory_trigger_idempotent_witness :
  _inventory_done initial_state = false /\
  list_calls (snd (early_inventory_job_selector ∅ sample_world
                     (snd (early_inventory_job_selector ∅ sample_world initial_state)))) =
    1%nat.
Proof.
  split; [reflexivity|].
  exact (proj1 (proj2 (proj2 (proj2 (proj2
    (inventory_trigger_idempotent ∅ sample_world absent_exists absent_size
       initial_state eq_refl)))))).
Defined.

Lemma lookups_leave_snapshot_unchanged_witness :
  _bulk_cache initial_state !! "a/3.txt" = None /\
  remote_calls (snd (patched_iofile_exists absent_exists "a/3.txt"
                       (snd (patched_iofile_exists absent_exists "a/3.txt" initial_state)))) =
    [RemoteExists "a/3.txt"; RemoteExists "a/3.txt"].
Proof.
  split; [reflexivity|].
  exact (proj1 (proj2 (proj2
    (lookups_leave_snapshot_unchanged absent_exists absent_size "a/3.txt" initial_state))
    eq_refl)).
Defined.

Lemma three_key_forms_agree_witness :
  fst (bulk_inventory_gcs ∅ sample_run initial_state) =
    Returns (lv_cache (inventory_loop ∅ sample_blobs)) /\
  run_listing sample_run = Listing sample_blobs None /\
  Blob "a/1.txt" 10 None ∈ sample_blobs /\
  local_path ∅ "a/1.txt" ∈
    [gcs_uri ∅ "a/1.txt"; snakemake_path ∅ "a/1.txt"; local_path ∅ "a/1.txt"] /\
  exists b',
    last_named "a/1.txt" sample_blobs = Some b' /\
    fst (patched_iofile_size absent_size (local_path ∅ "a/1.txt")
           (set_bulk_cache (lv_cache (inventory_loop ∅ sample_blobs)) initial_state)) =
      Returns (blob_size b').
Proof.
  assert (Hc : fst (bulk_inventory_gcs ∅ sample_run initial_state) =
               Returns (lv_cache (inventory_loop ∅ sample_blobs))) by reflexivity.
  assert (Hb : Blob "a/1.txt" 10 None ∈ sample_blobs) by apply list_elem_of_here.
  assert (Hk : local_path ∅ "a/1.txt" ∈
    [gcs_uri ∅ "a/1.txt"; snakemake_path ∅ "a/1.txt"; local_path ∅ "a/1.txt"]).
  { apply list_elem_of_further, list_elem_of_further, list_elem_of_here. }
  split; [exact Hc|]. split; [reflexivity|]. split; [exact Hb|]. split; [exact Hk|].
  destruct (proj2 (proj2
    (three_key_forms_agree ∅ absent_exists absent_size sample_run initial_state
       _ "a/1.txt" Hc)) sample_blobs _ eq_refl Hb eq_refl) as (b' & Hlast & _ & Hq).
  exists b'. split; [exact Hlast|].
  exact (proj1 (proj2 (proj2 (Hq _ (set_bulk_cache _ initial_state) Hk eq_refl)))).
Defined.

Lemma listed_keys_exist_and_false_only_by_fallback_witness :
  let cache := lv_cache (inventory_loop ∅ sample_blobs) in
  let st := set_bulk_cache cache initial_state in
  fst (bulk_inventory_gcs ∅ sample_run initial_state) = Returns cache /\
  fst (patched_iofile_exists absent_exists (gcs_uri ∅ "a/2.txt") st) = Returns true /\
  fst (patched_iofile_exists absent_exists (gcs_uri ∅ "a/3.txt") st) = Returns false /\
  cache !! gcs_uri ∅ "a/3.txt" = None.
Proof.
  intros cache st.
  assert (Hc : fst (bulk_inventory_gcs ∅ sample_run initial_state) = Returns cache)
    by reflexivity.
  assert (Hf : fst (patched_iofile_exists absent_exists (gcs_uri ∅ "a/3.txt") st)
               = Returns false) by (vm_compute; reflexivity).
  destruct (listed_keys_exist_and_false_only_by_fallback ∅ absent_exists
              sample_run initial_state cache Hc) as (_ & Listed & Absent).
  split; [exact Hc|]. split; [|split; [exact Hf|]].
  - apply (Listed sample_blobs (Blob "a/2.txt" 20 None) _ st eq_refl).
    + apply list_elem_of_further, list_elem_of_here.
    + apply list_elem_of_here.
    + reflexivity.
  - exact (proj1 (Absent _ st eq_refl Hf)).
Defined.

Lemma disabled_patch_is_pass_through_witness :
  PATCH_DISABLED disabling_environ = true /\
  fst (fst (import_module disabling_environ unpatched)) = SystemExit 0 /\
  list_calls (snd (host_calls disabling_environ sample_world absent_exists absent_size
                     (snd (fst (import_module disabling_environ unpatched)))
                     [CallJobSelector; CallExists "gs://scale1/a/1.txt"]
                     (snd (import_module disabling_environ unpatched)))) = O.
Proof.
  assert (Hd : PATCH_DISABLED disabling_environ = true) by reflexivity.
  split; [exact Hd|].
  destruct (disabled_patch_is_pass_through disabling_environ sample_world
              absent_exists absent_size Hd) as (Hexit & _ & Hcalls).
  split; [exact Hexit|].
  exact (proj1 (proj2 (Hcalls [CallJobSelector; CallExists "gs://scale1/a/1.txt"]))).
Defined.

(** C8, the claim as written, fails: after two inventories that took one
    and two seconds, [inventory_time] is the two seconds of the second,
    not the three seconds of both. *)
Lemma inventory_time_is_not_cumulative :
  let first := {| run_listing := Listing sample_blobs None; run_elapsed := 1000000 |} in
  let second := {| run_listing := Listing sample_blobs None; run_elapsed := 2000000 |} in
  let s := _cache_stats (inventory_runs ∅ [first; second] initial_state) in
  inventory_calls s = 2 /\
  inventory_time s = run_elapsed second /\
  inventory_time s <> run_elapsed first + run_elapsed second.
Proof. vm_compute. repeat split; [reflexivity..|discriminate]. Qed.

(** C10, the claim as written, fails: two callers that both test the flag
    before either sets it both run the inventory, so two listing requests
    are sent, not one. *)
Lemma two_concurrent_triggers_list_twice :
  let result := run_schedule ∅ sample_world [0; 1; 0; 1; 0; 1]%nat
                  (replicate 2 AtTest, initial_state) in
  fst result = [Finished true; Finished true] /\
  list_calls (snd result) = 2%nat /\
  list_calls (snd result) <> 1%nat.
Proof. vm_compute. repeat split; [reflexivity..|discriminate]. Qed.

Lemma concurrent_triggers_between_one_and_n_witness :
  let result := run_schedule ∅ sample_world [0; 1; 0; 1; 0; 1]%nat
                  (replicate 2 AtTest, initial_state) in
  _inventory_done initial_state = false /\
  all_finished (fst result) = true /\
  (1 <= 2)%nat /\
  (list_calls initial_state + 1 <= list_calls (snd result))%nat /\
  (0 < 2)%nat /\
  (3 <= count_occ Nat.eq_dec [0; 1; 0; 1; 0; 1]%nat 0)%nat /\
  exists b, fst result !! 0%nat = Some (Finished b).
Proof.
  intros result.
  assert (Hall : all_finished (fst result) = true) by (vm_compute; reflexivity).
  assert (H12 : (1 <= 2)%nat) by (repeat constructor).
  assert (H02 : (0 < 2)%nat) by (repeat constructor).
  assert (Hocc : (3 <= count_occ Nat.eq_dec [0; 1; 0; 1; 0; 1]%nat 0)%nat)
    by (vm_compute; repeat constructor).
  destruct (concurrent_triggers_between_one_and_n ∅ sample_world 2
              [0; 1; 0; 1; 0; 1]%nat initial_state eq_refl)
    as (_ & _ & _ & Hone & Hfin).
  split; [reflexivity|]. split; [exact Hall|]. split; [exact H12|].
  split; [exact (Hone Hall H12)|]. split; [exact H02|]. split; [exact Hocc|].
  exact (Hfin 0%nat H02 Hocc).
Defined.

(** ** The further statements at the sample inputs *)

Lemma refused_listing_prints_no_statistics_witness :
  run_listing (refusing_world O) = Listing [] (Some "403 Forbidden") /\
  _bulk_cache initial_state = ∅ /\
  inventory_calls (_cache_stats initial_state) = 0 /\
  _inventory_done initial_state = false /\
  list_calls initial_state = O /\
  print_statistics exact_above_95
    (_cache_stats (snd (host_calls ∅ refusing_world absent_exists absent_size patched
                          [CallJobSelector; CallExists "gs://scale1/a/1.txt"]
                          initial_state))) = [].
Proof.
  repeat (split; [reflexivity|]).
  exact (proj1 (refused_listing_prints_no_statistics ∅ refusing_world absent_exists
                  absent_size exact_above_95
                  [CallJobSelector; CallExists "gs://scale1/a/1.txt"]
                  initial_state [] "403 Forbidden"
                  eq_refl eq_refl eq_refl eq_refl eq_refl)).
Defined.

Lemma hit_rate_line_needs_exists_query_witness :
  let cs := [CallJobSelector; CallExists "gs://scale1/a/1.txt"] in
  let s := _cache_stats (snd (host_calls ∅ sample_world absent_exists absent_size
                                patched cs initial_state)) in
  cache_hits (_cache_stats initial_state) = 0 /\
  cache_misses (_cache_stats initial_state) = 0 /\
  inventory_calls s <> 0 /\
  exists h t, StatHitRate h t ∈ print_statistics exact_above_95 s.
Proof.
  intros cs s.
  assert (Hi : inventory_calls s <> 0) by (vm_compute; discriminate).
  split; [reflexivity|]. split; [reflexivity|]. split; [exact Hi|].
  apply (proj2 (hit_rate_line_needs_exists_query ∅ sample_world absent_exists absent_size
                  exact_above_95 cs initial_state eq_refl eq_refl)).
  split; [exact Hi|].
  exists (CallExists "gs://scale1/a/1.txt"). split; [|reflexivity].
  apply list_elem_of_further, list_elem_of_here.
Defined.


Lemma call_sites_interchangeable_witness :
  (exists pre post, coro_str sample_coroutine = pre +:+ "update_input_sizes" +:+ post) /\
  same_globals (snd (patched_async_run ∅ sample_world sample_coroutine initial_state))
               (snd (early_inventory_job_selector ∅ sample_world initial_state)).
Proof.
  assert (H : exists pre post,
            coro_str sample_coroutine = pre +:+ "update_input_sizes" +:+ post).
  { exists "<coroutine object JobScheduler.", " at 0x7f3a>". reflexivity. }
  split; [exact H|].
  exact (call_sites_interchangeable ∅ sample_world sample_coroutine initial_state H).
Defined.

Lemma three_entries_per_listed_name_witness :
  run_listing sample_run = Listing sample_blobs None /\
  fst (bulk_inventory_gcs ∅ sample_run initial_state) =
    Returns (lv_cache (inventory_loop ∅ sample_blobs)) /\
  NoDup (map blob_name sample_blobs) /\
  size (lv_cache (inventory_loop ∅ sample_blobs)) = 6%nat.
Proof.
  assert (ND : NoDup (map blob_name sample_blobs)).
  { apply (bool_decide_unpack _). vm_compute. exact I. }
  split; [reflexivity|]. split; [reflexivity|]. split; [exact ND|].
  exact (proj2 (proj2 (three_entries_per_listed_name ∅ sample_run initial_state
                         sample_blobs _ eq_refl eq_refl)) ND).
Defined.

Lemma bulk_inventory_gcs_output_witness :
  run_listing sample_run = Listing sample_blobs None /\
  Z.of_nat (length sample_blobs) < 10000 /\
  progress_lines (length sample_blobs) = [].
Proof.
  assert (Hlt : Z.of_nat (length sample_blobs) < 10000) by reflexivity.
  split; [reflexivity|]. split; [exact Hlt|].
  exact (proj2 (bulk_inventory_gcs_output ∅ sample_run initial_state)
           sample_blobs None eq_refl Hlt).
Defined.

Lemma dictionary_holds_exactly_the_listed_keys_witness :
  run_listing sample_run = Listing sample_blobs None /\
  fst (bulk_inventory_gcs ∅ sample_run initial_state) =
    Returns (lv_cache (inventory_loop ∅ sample_blobs)) /\
  is_hit (lv_cache (inventory_loop ∅ sample_blobs)) (snakemake_path ∅ "a/2.txt") = true.
Proof.
  split; [reflexivity|]. split; [reflexivity|].
  apply (proj1 (dictionary_holds_exactly_the_listed_keys ∅ absent_exists absent_size
                  sample_run initial_state sample_blobs _ eq_refl eq_refl)).
  exists (Blob "a/2.txt" 20 None). split.
  - apply list_elem_of_further, list_elem_of_here.
  - apply list_elem_of_further, list_elem_of_here.
Defined.

Lemma listing_order_is_irrelevant_witness :
  let reversed := {| run_listing := Listing (rev sample_blobs) None;
                     run_elapsed := run_elapsed sample_run |} in
  NoDup (map blob_name sample_blobs) /\
  sample_blobs ≡ₚ rev sample_blobs /\
  fst (bulk_inventory_gcs ∅ sample_run initial_state) =
    fst (bulk_inventory_gcs ∅ reversed initial_state).
Proof.
  intros reversed.
  assert (ND : NoDup (map blob_name sample_blobs)).
  { apply (bool_decide_unpack _). vm_compute. exact I. }
  assert (HP : sample_blobs ≡ₚ rev sample_blobs) by apply Permutation_rev.
  split; [exact ND|]. split; [exact HP|].
  exact (proj1 (listing_order_is_irrelevant ∅ absent_exists absent_size
                  sample_run reversed initial_state sample_blobs (rev sample_blobs)
                  eq_refl eq_refl eq_refl ND HP)).
Defined.

Lemma import_patches_and_lookups_do_not_list_witness :
  let cs := [CallExists "gs://scale1/a/1.txt"; CallSize "gs://scale1/a/1.txt"] in
  enabling_environ !! "GCS_JOB_SCHEDULER_PATCH_DISABLE" <> Some "1" /\
  forallb is_query cs = true /\
  fst (fst (import_module enabling_environ unpatched)) = Imported /\
  list_calls (snd (host_calls enabling_environ sample_world absent_exists absent_size
                     (snd (fst (import_module enabling_environ unpatched))) cs
                     (snd (import_module enabling_environ unpatched)))) = O.
Proof.
  intros cs.
  assert (Hv : enabling_environ !! "GCS_JOB_SCHEDULER_PATCH_DISABLE" <> Some "1").
  { vm_compute. intros H. discriminate H. }
  split; [exact Hv|]. split; [reflexivity|].
  destruct (import_patches_and_lookups_do_not_list enabling_environ sample_world
              absent_exists absent_size cs Hv eq_refl) as (Hi & _ & _ & Hl & _).
  split; [exact Hi|exact Hl].
Defined.

Lemma second_apply_patch_makes_misses_recurse_witness :
  let once := save_and_patch_iofile unpatched no_originals in
  let twice := save_and_patch_iofile (fst once) (snd once) in
  _bulk_cache initial_state !! "gs://scale1/a/3.txt" = None /\
  fst (call_iofile_exists absent_exists 5 (snd twice) (IOFile_exists (fst twice))
         "gs://scale1/a/3.txt" initial_state) =
    Raises "RecursionError".
Proof.
  intros once twice. split; [reflexivity|].
  exact (proj1 (proj1 (second_apply_patch_makes_misses_recurse absent_exists absent_size
                         5 "gs://scale1/a/3.txt" initial_state) eq_refl)).
Defined.

Lemma callers_testing_first_all_list_witness :
  _inventory_done initial_state = false /\
  list_calls (snd (run_schedule ∅ sample_world (round_robin 3)
                     (replicate 3 AtTest, initial_state))) = 3%nat.
Proof.
  split; [reflexivity|].
  exact (proj2 (callers_testing_first_all_list ∅ sample_world 3 initial_state eq_refl)).
Defined.

Lemma callers_one_by_one_list_once_witness :
  _inventory_done initial_state = false /\
  list_calls (snd (run_schedule ∅ sample_world (one_by_one 3)
                     (replicate 3 AtTest, initial_state))) = 1%nat.
Proof.
  split; [reflexivity|].
  exact (proj2 (callers_one_by_one_list_once ∅ sample_world 2 initial_state eq_refl)).
Defined.

(** ** The log retrieval patch *)

Lemma string_append_assoc (a b c : string) : (a +:+ b) +:+ c = a +:+ (b +:+ c).
Proof.
  induction a as [|x a IH]; [reflexivity|].
  change (String x ((a +:+ b) +:+ c) = String x (a +:+ (b +:+ c))).
  rewrite IH. reflexivity.
Qed.

Lemma string_append_nil_r (a : string) : a +:+ "" = a.
Proof.
  induction a as [|x a IH]; [reflexivity|].
  change (String x (a +:+ "") = String x a). rewrite IH. reflexivity.
Qed.

Lemma occurs_in_append_l (n s t : string) : occurs_in n s -> occurs_in n (s +:+ t).
Proof.
  intros (pre & post & ->). exists pre, (post +:+ t).
  rewrite !string_append_assoc. reflexivity.
Qed.

Lemma occurs_in_append_r (n s t : string) : occurs_in n t -> occurs_in n (s +:+ t).
Proof.
  intros (pre & post & ->). exists (s +:+ pre), post.
  rewrite !string_append_assoc. reflexivity.
Qed.

(** X16: [skip_log_retrieval] raises only when [job_info.aux] lacks one
    of the two keys it reads, and then it has written and logged nothing.
    With both keys present it returns normally whatever happens to the
    file: a failure to open or write it becomes one warning carrying the
    error text, the debug line naming the job is logged last in every
    case, no file other than the job's log file is touched, and a failed
    [open] leaves that file as it was too. *)
Theorem skip_log_retrieval_raises_only_key_errors
    (project : string) (aux : job_aux) (sleeps page_size : Z)
    (io : io_result) (w : executor_world) :
  let res := skip_log_retrieval project aux sleeps page_size io w in
  (fst res = Returns tt <-> is_Some (aux_logfile aux) /\ is_Some (aux_batch_job aux)) /\
  (fst res <> Returns tt ->
   snd res = w /\
   (fst res = Raises "KeyError: 'logfile'" \/ fst res = Raises "KeyError: 'batch_job'")) /\
  (forall f job,
     aux_logfile aux = Some f -> aux_batch_job aux = Some job ->
     let debug := LogDebug ("Skipped log retrieval for job " +:+ job_uid job +:+
                            " (performance optimization)") in
     let warning e := LogWarning ("Failed to write placeholder log file: " +:+ e) in
     (forall g, g <> f -> files (snd res) !! g = files w !! g) /\
     match io with
     | WriteOk => logger (snd res) = logger w ++ [debug]
     | OpenFails e =>
       logger (snd res) = logger w ++ [warning e; debug] /\ files (snd res) = files w
     | WriteFails e flushed => logger (snd res) = logger w ++ [warning e; debug]
     end).
Proof.
  unfold skip_log_retrieval.
  destruct (aux_logfile aux) as [f|]; [destruct (aux_batch_job aux) as [job|]|]; simpl.
  - split; [split; [eauto|reflexivity]|]. split; [intros N; contradiction|].
    intros f' job' Hf Hj. injection Hf as <-. injection Hj as <-.
    destruct io as [|e|e flushed]; simpl.
    + split; [|reflexivity]. intros g Hg. apply lookup_insert_ne. congruence.
    + rewrite <- app_assoc. auto.
    + rewrite <- app_assoc. split; [|reflexivity].
      intros g Hg. apply lookup_insert_ne. congruence.
  - split.
    { split; [discriminate|]. intros (_ & (x & Hx)). discriminate. }
    split; [auto|]. intros f' job' _ Hj. discriminate.
  - split.
    { split; [discriminate|]. intros ((x & Hx) & _). discriminate. }
    split; [auto|]. intros f' job' Hf. discriminate.
Qed.

(** X17: when the file can be written, the job's log file afterwards
    holds exactly the placeholder text, whatever it held before and
    whatever [sleeps] and [page_size] are; running the function again
    leaves the files as they are; and the text names the job, under
    [Job Name], in the [gcloud] filter on its uid, and with the
    executor's project. *)
Theorem placeholder_replaces_the_log
    (project f : string) (job : batch_job) (sleeps page_size sleeps' page_size' : Z)
    (w : executor_world) :
  let aux := {| aux_logfile := Some f; aux_batch_job := Some job |} in
  let text := placeholder project f (job_uid job) (job_name job) in
  let w1 := snd (skip_log_retrieval project aux sleeps page_size WriteOk w) in
  files w1 !! f = Some text /\
  files (snd (skip_log_retrieval project aux sleeps' page_size' WriteOk w1)) = files w1 /\
  occurs_in ("Job Name: " +:+ job_name job +:+ newline) text /\
  occurs_in ("labels.job_uid=" +:+ job_uid job +:+ double_quote) text /\
  occurs_in ("--project=" +:+ project +:+ " ") text /\
  occurs_in (" > " +:+ f +:+ ".json") text.
Proof.
  simpl. split; [apply lookup_insert_eq|]. split; [apply insert_insert_eq|].
  unfold placeholder, placeholder_writes. cbn [fold_right].
  repeat split.
  - do 3 apply occurs_in_append_r. apply occurs_in_append_l.
    exists "", "". rewrite !string_append_assoc, !string_append_nil_r. reflexivity.
  - do 10 apply occurs_in_append_r. apply occurs_in_append_l.
    exists ("  gcloud logging read " +:+ double_quote), (" " +:+ backslash +:+ newline).
    rewrite !string_append_assoc. reflexivity.
  - do 11 apply occurs_in_append_r. apply occurs_in_append_l.
    exists "    ", (backslash +:+ newline).
    rewrite !string_append_assoc. reflexivity.
  - do 12 apply occurs_in_append_r. apply occurs_in_append_l.
    exists "    --format=json", (newline +:+ newline).
    rewrite !string_append_assoc. reflexivity.
Qed.

Lemma skip_log_retrieval_raises_only_key_errors_witness :
  let aux := {| aux_logfile := Some "logs/job1.log";
                aux_batch_job := Some (BatchJob "job1-uid" "snakejob-align") |} in
  let w := {| files := ∅; logger := [] |} in
  aux_logfile aux = Some "logs/job1.log" /\
  aux_batch_job aux = Some (BatchJob "job1-uid" "snakejob-align") /\
  "logs/job2.log" <> "logs/job1.log" /\
  files (snd (skip_log_retrieval "my-project" aux 60 1000
                (WriteFails "OSError: disk full" "====") w)) !! "logs/job2.log" = None.
Proof.
  intros aux w.
  assert (Hne : "logs/job2.log" <> "logs/job1.log") by discriminate.
  split; [reflexivity|]. split; [reflexivity|]. split; [exact Hne|].
  exact (proj1 (proj2 (proj2
    (skip_log_retrieval_raises_only_key_errors "my-project" aux 60 1000
       (WriteFails "OSError: disk full" "====") w))
    "logs/job1.log" (BatchJob "job1-uid" "snakejob-align") eq_refl eq_refl)
    "logs/job2.log" Hne).
Defined.
